(** * Trado backtesting engine: the single-day trade simulator and the runner

    A shallow embedding of [src/services/backtestService.ts] (class
    [BacktestService]) and of the part of [topicService.ts] it calls.

    Modelling choices.
    - A JavaScript [number] is an IEEE-754 binary64 value: Rocq's primitive
      [float], with the same arithmetic, comparisons, infinities and NaN.
    - A [Date] is its epoch-millisecond count, a [Z].  The event clock of
      [processOptionPrices] sorts the ISO-8601 strings of the instants by
      code unit; [isoLe] is that order, stated on the instants.  On years
      0000 to 9999 it is the order of time; instants of later years come
      first and those of earlier years second, as their strings begin with
      [+] and [-].
    - [tradeDay.positions] is a shared mutable array of objects.  The local
      variables [ce] and [pe] of the event loop are references into it; they
      are modelled as indices into the position list, and [exitPosition]
      as an in-place update at that index.
    - The data service reads a database: its three queries are fields of a
      record of functions.  The constants of [config/constants] are the
      fields of [Constants].
    - [console.warn] is modelled by a log of [Warning]s; [console.log] is
      dropped.
    - A query that throws (a topic that is not in the database) and a row
      whose timestamp is not a valid date are outside the model: the data
      service answers every question it is asked. *)

From Stdlib Require Import ZArith Floats Ascii String.
From stdpp Require Import sorting base decidable option numbers list.

(** ** Data model ([models/types], as used by the service) *)

Inductive OptionType := CE | PE.

Inductive ExitReason := SL | TOTAL_PL_TARGET | TOTAL_PL_SL | EOD.

Global Instance OptionType_eq_dec : EqDecision OptionType.
Proof. solve_decision. Defined.

Global Instance ExitReason_eq_dec : EqDecision ExitReason.
Proof. solve_decision. Defined.

Record Position := mkPosition {
  type : OptionType;
  entryPrice : float;
  entryTime : Z;
  isActive : bool;
  strikePrice : float;
  exitPrice : option float;
  exitTime : option Z;
  exitReason : option ExitReason;
  pnl : option float
}.

(** A row of the tick series; the fields [id] and [topic] are never read by
    the backtest and are left out. *)
Record OptionData := mkOptionData {
  ltp : float;
  received_at : Z
}.

Record TradeDay := mkTradeDay {
  date : string;
  atmStrike : float;
  positions : list Position;
  totalPnl : float;
  madeAdjustment : bool;
  dayPnlPercent : float
}.

(** [winningDays] and [losingDays] are counters incremented once per day;
    they are kept as natural numbers and converted where the code divides. *)
Record BacktestResult := mkBacktestResult {
  days : list TradeDay;
  resultTotalPnl : float;
  winningDays : nat;
  losingDays : nat;
  winRate : float;
  averageDailyPnl : float
}.

Inductive Warning :=
| SkippingAdjustment (d : string)
| NoTimeSeries (t : OptionType) (d : string).

(** ** Configuration and collaborators *)

Record Constants := mkConstants {
  INDEX_NAME : string;
  SL_PERCENT : float;
  PNL_TARGET_PERCENT : float;
  PNL_SL_PERCENT : float;
  ENTRY_TIME : string;
  ADJUSTMENT_TIME : string;
  EXIT_TIME : string;
  (* timeUtils.createDateTime: date and time of day to an instant *)
  createDateTime : string → string → Z
}.

Record DataService := mkDataService {
  getATMStrike : string → string → option float;
  getOptionPrice : string → string → float → OptionType → float;
  getOptionPriceTimeSeries :
    string → string → string → float → OptionType → list OptionData
}.

(** ** JavaScript number helpers *)

(** Truthiness of a number: [0], [-0] and [NaN] are falsy. *)
Definition truthy (x : float) : bool := negb (is_zero x || is_nan x).

(** [x || 0] *)
Definition orZero (x : float) : float := if truthy x then x else 0%float.

(** [a >= b] and [a <= b] on numbers. *)
Definition geq (a b : float) : bool := (b <=? a)%float.
Definition leq (a b : float) : bool := (a <=? b)%float.

Definition numberOfNat (n : nat) : float :=
  PrimFloat.of_uint63 (Uint63.of_Z (Z.of_nat n)).

(** ** topicService.getLotSize *)

Definition upperAscii (c : ascii) : ascii :=
  let n := nat_of_ascii c in
  if (Nat.leb 97 n && Nat.leb n 122)%bool then ascii_of_nat (n - 32) else c.

(** [toUpperCase] on strings of ASCII characters.  Index names with other
    characters are outside the model: JavaScript maps a few of them (the
    dotless i, the long s, some ligatures) to ASCII capitals. *)
Fixpoint toUpperCase (s : string) : string :=
  match s with
  | EmptyString => EmptyString
  | String c r => String (upperAscii c) (toUpperCase r)
  end.

Definition getLotSize (indexName : string) : float :=
  let u := toUpperCase indexName in
  if String.eqb u "NIFTY" then 75%float
  else if String.eqb u "BANKNIFTY" then 30%float
  else if String.eqb u "MIDCPNIFTY" then 120%float
  else if String.eqb u "FINNIFTY" then 65%float
  else 30%float.

(** ** exitPosition *)

Definition exitPosition (price : float) (time : Z) (reason : ExitReason)
    (position : Position) : Position :=
  {| type := type position;
     entryPrice := entryPrice position;
     entryTime := entryTime position;
     isActive := false;
     strikePrice := strikePrice position;
     exitPrice := Some price;
     exitTime := Some time;
     exitReason := Some reason;
     pnl := pnl position |}.

(** [exitPosition] called on the object that index [i] refers to. *)
Definition exitAt (i : nat) (price : float) (time : Z) (reason : ExitReason)
    (ps : list Position) : list Position :=
  alter (exitPosition price time reason) i ps.

Definition newPosition (t : OptionType) (price : float) (time : Z)
    (strike : float) : Position :=
  {| type := t; entryPrice := price; entryTime := time; isActive := true;
     strikePrice := strike; exitPrice := None; exitTime := None;
     exitReason := None; pnl := None |}.

Definition set_positions (ps : list Position) (d : TradeDay) : TradeDay :=
  {| date := date d; atmStrike := atmStrike d; positions := ps;
     totalPnl := totalPnl d; madeAdjustment := madeAdjustment d;
     dayPnlPercent := dayPnlPercent d |}.

Definition set_madeAdjustment (b : bool) (d : TradeDay) : TradeDay :=
  {| date := date d; atmStrike := atmStrike d; positions := positions d;
     totalPnl := totalPnl d; madeAdjustment := b;
     dayPnlPercent := dayPnlPercent d |}.

Definition set_pnl (x : float) (p : Position) : Position :=
  {| type := type p; entryPrice := entryPrice p; entryTime := entryTime p;
     isActive := isActive p; strikePrice := strikePrice p;
     exitPrice := exitPrice p; exitTime := exitTime p;
     exitReason := exitReason p; pnl := Some x |}.

(** ** The event clock *)

(** [positions.find (p => p.type === t && p.isActive)], as a reference. *)
Definition findActive (t : OptionType) (ps : list Position) : option nat :=
  fst <$> list_find (λ p, type p = t ∧ isActive p = true) ps.

(** [series.find (d => d.received_at.toISOString() === timeStr)] *)
Definition findTick (series : list OptionData) (time : Z) : option OptionData :=
  snd <$> list_find (λ d, received_at d = time) series.

(** [toISOString] writes a year from 0 to 9999 with four digits, a later
    year as [+YYYYYY] and an earlier year as [-YYYYYY] (six digits of the
    absolute value); everything after the year has a fixed width.  The
    default [sort] compares strings by code unit, where [+] is below [-] and
    [-] below the digits.  So the strings of instants from year 10000 on come
    first, in the order of time; then those of the years before year 0, by
    growing absolute value of the year and, within a year, in the order of
    time; then those of the years 0000 to 9999, in the order of time. *)

(** 0000-01-01T00:00:00.000Z and +010000-01-01T00:00:00.000Z *)
Definition yearZero : Z := -62167219200000.
Definition yearTenThousand : Z := 253402300800000.

(** The instant falls in a year that is written with four digits. *)
Definition fourDigitYear (ms : Z) : Prop :=
  (yearZero ≤ ms < yearTenThousand)%Z.

(** The UTC calendar year of an instant (proleptic Gregorian calendar, with
    a year 0), by counting days in eras of 400 years from 0000-03-01. *)
Definition yearOf (ms : Z) : Z :=
  let days := (ms / 86400000)%Z in
  let z := (days + 719468)%Z in
  let era := (z / 146097)%Z in
  let doe := (z - era * 146097)%Z in
  let yoe := ((doe - doe / 1460 + doe / 36524 - doe / 146096) / 365)%Z in
  let y := (yoe + era * 400)%Z in
  let doy := (doe - (365 * yoe + yoe / 4 - yoe / 100))%Z in
  let mp := ((5 * doy + 2) / 153)%Z in
  if (mp <? 10)%Z then y else (y + 1)%Z.

(** What decides the place of an instant's string: the group of its first
    character, then the digits of the year, then the rest. *)
Definition isoKey (ms : Z) : Z * Z * Z :=
  if (yearTenThousand <=? ms)%Z then (0, 0, ms)%Z
  else if (ms <? yearZero)%Z then (1, - yearOf ms, ms)%Z
  else (2, 0, ms)%Z.

Definition keyLe (k1 k2 : Z * Z * Z) : Prop :=
  (k1.1.1 < k2.1.1)%Z
  ∨ (k1.1.1 = k2.1.1
     ∧ ((k1.1.2 < k2.1.2)%Z
        ∨ (k1.1.2 = k2.1.2 ∧ (k1.2 ≤ k2.2)%Z))).

(** [a.toISOString() <= b.toISOString()], by code unit. *)
Definition isoLe (a b : Z) : Prop := keyLe (isoKey a) (isoKey b).

Global Instance isoLe_dec a b : Decision (isoLe a b).
Proof. unfold isoLe, keyLe. apply _. Defined.

(** [Array.from(new Set([...ce, ...pe].map(received_at))).sort()] *)
Definition sortedTimes (ceTimeSeries peTimeSeries : list OptionData) : list Z :=
  merge_sort isoLe (remove_dups (received_at <$> (ceTimeSeries ++ peTimeSeries))).

(** [ref?.entryPrice || 0] for a reference [ref] into [ps]. *)
Definition entryOrZero (ps : list Position) (ref : option nat) : float :=
  match ref ≫= (λ i, ps !! i) with
  | Some p => orZero (entryPrice p)
  | None => 0%float
  end.

(** [data?.ltp || 0] *)
Definition ltpOrZero (data : option OptionData) : float :=
  match data with
  | Some d => orZero (ltp d)
  | None => 0%float
  end.

(** [((current - entry) / entry) * 100] *)
Definition percentChange (current entry : float) : float :=
  ((current - entry) / entry * 100)%float.

(** ** processOptionPrices: the loop state *)

Record LoopState := mkLoopState {
  tradeDay : TradeDay;
  adjustmentDone : bool;
  warnings : list Warning
}.

(** How an iteration of the event loop ends: [break], or on to the next
    timestamp (falling off the end of the body, or [continue]). *)
Inductive Flow := Break | Next.

Section BacktestService.
Context (K : Constants) (dataService : DataService).

(** [this.lotSize], set by the constructor. *)
Definition lotSize : float := getLotSize (INDEX_NAME K).

(** [if (leg && data) this.exitPosition(leg, data.ltp, currentTime, reason)] *)
Definition exitLeg (leg : option nat) (data : option OptionData)
    (currentTime : Z) (reason : ExitReason) (ps : list Position)
    : list Position :=
  match leg, data with
  | Some i, Some d => exitAt i (ltp d) currentTime reason ps
  | _, _ => ps
  end.

Definition totalChange (ps : list Position) (ce pe : option nat)
    (ceData peData : option OptionData) : float :=
  let totalEntry := (entryOrZero ps ce + entryOrZero ps pe)%float in
  let currentTotal := (ltpOrZero ceData + ltpOrZero peData)%float in
  percentChange currentTotal totalEntry.

(** The flag [exitBoth]: assigned in both combined branches, read nowhere. *)
Definition exitBoth (change : float) : bool :=
  if geq change (PNL_TARGET_PERCENT K) then true
  else if leq change (- PNL_SL_PERCENT K)%float then true
  else false.

(** Combined P&L target, else combined stop loss. *)
Definition combinedChecks (ce pe : option nat)
    (ceData peData : option OptionData) (currentTime : Z)
    (ps : list Position) : list Position :=
  let change := totalChange ps ce pe ceData peData in
  if geq change (PNL_TARGET_PERCENT K) then
    exitLeg pe peData currentTime TOTAL_PL_TARGET
      (exitLeg ce ceData currentTime TOTAL_PL_TARGET ps)
  else if leq change (- PNL_SL_PERCENT K)%float then
    exitLeg pe peData currentTime TOTAL_PL_SL
      (exitLeg ce ceData currentTime TOTAL_PL_SL ps)
  else ps.

(** Individual stop loss of one leg; the source has this block twice, once
    for [ce] and once for [pe].  The guard is [leg && data]: it does not
    look at [isActive]. *)
Definition individualSL (leg : option nat) (data : option OptionData)
    (currentTime : Z) (ps : list Position) : list Position :=
  match leg, data with
  | Some i, Some d =>
      match ps !! i with
      | Some p =>
          let change := percentChange (ltp d) (entryPrice p) in
          if leq change (- SL_PERCENT K)%float
          then exitAt i (ltp d) currentTime SL ps
          else ps
      | None => ps
      end
  | _, _ => ps
  end.

(** The exits of one event: combined checks, then the two individual
    stop-loss blocks, all through the references [ce] and [pe] taken at the
    top of the iteration. *)
Definition applyExits (ce pe : option nat)
    (ceData peData : option OptionData) (currentTime : Z)
    (ps : list Position) : list Position :=
  individualSL pe peData currentTime
    (individualSL ce ceData currentTime
       (combinedChecks ce pe ceData peData currentTime ps)).

(** [tradeDay.positions.every (p => !p.isActive)] *)
Definition allExited (ps : list Position) : bool :=
  forallb (λ p, negb (isActive p)) ps.

(** The adjustment block at the end of the loop body. *)
Definition adjustment (d : string) (ceData peData : option OptionData)
    (currentTime : Z) (st : LoopState) : LoopState :=
  if (negb (adjustmentDone st)
      && bool_decide (currentTime < createDateTime K d (ADJUSTMENT_TIME K))%Z)%bool
  then
    if allExited (positions (tradeDay st)) then
      let day := set_madeAdjustment true (tradeDay st) in
      match ceData, peData with
      | Some c, Some p =>
          let pair :=
            [ newPosition CE (ltp c) currentTime (atmStrike day);
              newPosition PE (ltp p) currentTime (atmStrike day) ] in
          {| tradeDay := set_positions (positions day ++ pair) day;
             adjustmentDone := true;
             warnings := warnings st |}
      | _, _ =>
          {| tradeDay := day;
             adjustmentDone := true;
             warnings := warnings st ++ [SkippingAdjustment d] |}
      end
    else st
  else st.

(** One iteration of [for (const timeStr of sortedTimes)]. *)
Definition processEvent (d : string)
    (ceTimeSeries peTimeSeries : list OptionData)
    (timeStr : Z) (st : LoopState) : Flow * LoopState :=
  let currentTime := timeStr in
  let ceData := findTick ceTimeSeries timeStr in
  let peData := findTick peTimeSeries timeStr in
  let ps := positions (tradeDay st) in
  let ce := findActive CE ps in
  let pe := findActive PE ps in
  match ce, pe with
  | None, None => (Break, st)
  | _, _ =>
      let ps' := applyExits ce pe ceData peData currentTime ps in
      let st' := {| tradeDay := set_positions ps' (tradeDay st);
                    adjustmentDone := adjustmentDone st;
                    warnings := warnings st |} in
      (Next, adjustment d ceData peData currentTime st')
  end.

Fixpoint eventLoop (d : string) (ceTimeSeries peTimeSeries : list OptionData)
    (times : list Z) (st : LoopState) : LoopState :=
  match times with
  | [] => st
  | timeStr :: rest =>
      match processEvent d ceTimeSeries peTimeSeries timeStr st with
      | (Break, st') => st'
      | (Next, st') => eventLoop d ceTimeSeries peTimeSeries rest st'
      end
  end.

(** One iteration of the end-of-day loop: an active position is closed at
    the last element of its leg's series; with an empty series it is left
    as it is and a warning is logged. *)
Definition exitAtEOD (d : string)
    (ceTimeSeries peTimeSeries : list OptionData) (pos : Position)
    : Position * list Warning :=
  if isActive pos then
    let ts := match type pos with
              | CE => ceTimeSeries
              | PE => peTimeSeries
              end in
    match last ts with
    | None => (pos, [NoTimeSeries (type pos) d])
    | Some final =>
        (exitPosition (ltp final) (received_at final) EOD pos, [])
    end
  else (pos, []).

Fixpoint exitRemaining (d : string)
    (ceTimeSeries peTimeSeries : list OptionData) (ps : list Position)
    : list Position * list Warning :=
  match ps with
  | [] => ([], [])
  | pos :: rest =>
      let '(pos', w) := exitAtEOD d ceTimeSeries peTimeSeries pos in
      let '(rest', ws) := exitRemaining d ceTimeSeries peTimeSeries rest in
      (pos' :: rest', w ++ ws)
  end.

Definition processOptionPrices (day : TradeDay)
    (ceTimeSeries peTimeSeries : list OptionData) (d : string)
    : TradeDay * list Warning :=
  let st := eventLoop d ceTimeSeries peTimeSeries
              (sortedTimes ceTimeSeries peTimeSeries)
              {| tradeDay := day; adjustmentDone := false; warnings := [] |} in
  let '(ps, ws) := exitRemaining d ceTimeSeries peTimeSeries
                     (positions (tradeDay st)) in
  (set_positions ps (tradeDay st), warnings st ++ ws).

(** ** calculateDayPnL *)

Fixpoint calculateDayPnL_from (total : float) (ps : list Position)
    : list Position * float :=
  match ps with
  | [] => ([], total)
  | p :: rest =>
      match exitPrice p with
      | Some x =>
          let v := ((x - entryPrice p) * lotSize)%float in
          let '(rest', t) := calculateDayPnL_from (total + v)%float rest in
          (set_pnl v p :: rest', t)
      | None =>
          let '(rest', t) := calculateDayPnL_from total rest in
          (p :: rest', t)
      end
  end.

(** Returns the positions with their [pnl] filled in, and the total. *)
Definition calculateDayPnL (day : TradeDay) : list Position * float :=
  calculateDayPnL_from 0%float (positions day).

(** ** processTradingDay *)

(** The day returned when [!atmStrike]. *)
Definition skippedDay (d : string) : TradeDay :=
  {| date := d; atmStrike := 0%float; positions := []; totalPnl := 0%float;
     madeAdjustment := false; dayPnlPercent := 0%float |}.

(** [atmStrike] when it is truthy: not [null], not [0], not [NaN]. *)
Definition strikeFound (o : option float) : option float :=
  match o with
  | Some s => if truthy s then Some s else None
  | None => None
  end.

(** The two positions and the day record built before the event loop. *)
Definition initialPositions (d : string) (strike cePrice pePrice : float)
    : list Position :=
  [ newPosition CE cePrice (createDateTime K d (ENTRY_TIME K)) strike;
    newPosition PE pePrice (createDateTime K d (ENTRY_TIME K)) strike ].

Definition initialTradeDay (d : string) (strike cePrice pePrice : float)
    : TradeDay :=
  {| date := d; atmStrike := strike;
     positions := initialPositions d strike cePrice pePrice;
     totalPnl := 0%float; madeAdjustment := false;
     dayPnlPercent := 0%float |}.

Definition processTradingDay (d : string) : TradeDay * list Warning :=
  match strikeFound (getATMStrike dataService d (ENTRY_TIME K)) with
  | None => (skippedDay d, [])
  | Some strike =>
      let cePrice := getOptionPrice dataService d (ENTRY_TIME K) strike CE in
      let pePrice := getOptionPrice dataService d (ENTRY_TIME K) strike PE in
      let ceTimeSeries :=
        getOptionPriceTimeSeries dataService d (ENTRY_TIME K) (EXIT_TIME K)
          strike CE in
      let peTimeSeries :=
        getOptionPriceTimeSeries dataService d (ENTRY_TIME K) (EXIT_TIME K)
          strike PE in
      let day0 := initialTradeDay d strike cePrice pePrice in
      let '(day1, ws) := processOptionPrices day0 ceTimeSeries peTimeSeries d in
      let '(ps, total) := calculateDayPnL day1 in
      ({| date := date day1; atmStrike := atmStrike day1; positions := ps;
          totalPnl := total; madeAdjustment := madeAdjustment day1;
          dayPnlPercent :=
            (total / ((cePrice + pePrice) * lotSize) * 100)%float |}, ws)
  end.

(** ** runBacktest *)

(** The accumulating loop [for (const date of days)]. *)
Fixpoint runDays (ds : list string) (acc : BacktestResult) : BacktestResult :=
  match ds with
  | [] => acc
  | d :: rest =>
      let day := fst (processTradingDay d) in
      let won := geq (totalPnl day) 0%float in
      runDays rest
        {| days := days acc ++ [day];
           resultTotalPnl := (resultTotalPnl acc + totalPnl day)%float;
           winningDays := if won then S (winningDays acc) else winningDays acc;
           losingDays := if won then losingDays acc else S (losingDays acc);
           winRate := winRate acc;
           averageDailyPnl := averageDailyPnl acc |}
  end.

Definition emptyResult : BacktestResult :=
  {| days := []; resultTotalPnl := 0%float; winningDays := 0; losingDays := 0;
     winRate := 0%float; averageDailyPnl := 0%float |}.

Definition runBacktest (ds : list string) : BacktestResult :=
  let result := runDays ds emptyResult in
  let numDays := numberOfNat (length (days result)) in
  {| days := days result;
     resultTotalPnl := resultTotalPnl result;
     winningDays := winningDays result;
     losingDays := losingDays result;
     winRate := (numberOfNat (winningDays result) / numDays * 100)%float;
     averageDailyPnl := (resultTotalPnl result / numDays)%float |}.

End BacktestService.

(** ** The P&L sum as the specification words it *)

(** [(exitPrice - entryPrice) * lotSize] of a position with a resolved exit. *)
Definition positionPnl (lot : float) (p : Position) : option float :=
  (λ x, ((x - entryPrice p) * lot)%float) <$> exitPrice p.

(** Sum of a sequence of numbers, left to right from [0]. *)
Definition sumNumbers (xs : list float) : float :=
  foldl (λ acc v, (acc + v)%float) 0%float xs.

Definition sumOfPositionPnl (lot : float) (ps : list Position) : float :=
  sumNumbers (omap (positionPnl lot) ps).

(** ** Sample configuration and days *)

(** The defaults: individual stop loss 25 %, combined target 25 %, combined
    stop loss 10 %, entry 09:25, adjustment cutoff 14:00, exit 15:15.  The
    sample clock counts milliseconds from local midnight. *)
Definition sampleClock (d t : string) : Z :=
  if String.eqb t "09:25" then 33900000
  else if String.eqb t "14:00" then 50400000
  else 54900000.

Definition defaults : Constants :=
  {| INDEX_NAME := "BANKNIFTY";
     SL_PERCENT := 25%float;
     PNL_TARGET_PERCENT := 25%float;
     PNL_SL_PERCENT := 10%float;
     ENTRY_TIME := "09:25";
     ADJUSTMENT_TIME := "14:00";
     EXIT_TIME := "15:15";
     createDateTime := sampleClock |}.

Definition tick (time : Z) (price : float) : OptionData :=
  {| ltp := price; received_at := time |}.

(** A data service that answers the same for every date. *)
Definition fixedDay (strike : option float) (cePrice pePrice : float)
    (ceTicks peTicks : list OptionData) : DataService :=
  {| getATMStrike := λ _ _, strike;
     getOptionPrice := λ _ _ _ t, match t with CE => cePrice | PE => pePrice end;
     getOptionPriceTimeSeries :=
       λ _ _ _ _ t, match t with CE => ceTicks | PE => peTicks end |}.

Definition sampleDate : string := "2025-05-23".

Definition t1 : Z := 34000000.
Definition t2 : Z := 35000000.
Definition t3 : Z := 36000000.

(** Entry 100/100; at [t1] both legs trade at 70: the combined change is
    -30 % and each leg's own change is -30 %. *)
Definition bothDrop : DataService :=
  fixedDay (Some 50000%float) 100 100 [tick t1 70] [tick t1 70].

(** Entry 100/100; both legs fall to 60 at [t1], to 40 at [t2], and trade
    at 50 at [t3]. *)
Definition dropTwice : DataService :=
  fixedDay (Some 50000%float) 100 100
    [tick t1 60; tick t2 40; tick t3 50] [tick t1 60; tick t2 40; tick t3 50].

(** Entry 100/100; the call ticks only at [t1], the put only at [t2]. *)
Definition misaligned : DataService :=
  fixedDay (Some 50000%float) 100 100 [tick t1 60] [tick t2 60].

(** No entry price was found for either leg (the data service answers 0). *)
Definition zeroEntry : DataService :=
  fixedDay (Some 50000%float) 0 0 [tick t1 5; tick t2 6] [tick t1 5; tick t2 7].

(** No index tick around the entry time. *)
Definition noStrike : DataService :=
  fixedDay None 0 0 [] [].

(** A strike, but no option tick at all. *)
Definition noTicks : DataService :=
  fixedDay (Some 50000%float) 100 100 [] [].

(** A day counts as winning when its total is [>= 0]; a [NaN] total does not. *)
Definition isWinning (day : TradeDay) : bool := geq (totalPnl day) 0%float.

(** What [exitPosition] never touches. *)
Definition static (p : Position) : OptionType * float * Z * float :=
  (type p, entryPrice p, entryTime p, strikePrice p).


(** The tick series of a leg. *)
Definition seriesOf (ceTimeSeries peTimeSeries : list OptionData)
    (t : OptionType) : list OptionData :=
  match t with
  | CE => ceTimeSeries
  | PE => peTimeSeries
  end.

(** The states a position can be in. *)
Definition isOpen (p : Position) : Prop :=
  isActive p = true ∧ exitPrice p = None ∧ exitTime p = None
  ∧ exitReason p = None.

(** Closed inside the event loop, by a stop-loss or target rule. *)
Definition closedByRule (ceTimeSeries peTimeSeries : list OptionData)
    (p : Position) : Prop :=
  isActive p = false ∧ is_Some (exitPrice p)
  ∧ (∃ r, exitReason p = Some r ∧ r ≠ EOD)
  ∧ seriesOf ceTimeSeries peTimeSeries (type p) ≠ [].

(** Force-closed after the loop, at the last tick of its leg. *)
Definition closedAtEOD (ceTimeSeries peTimeSeries : list OptionData)
    (p : Position) : Prop :=
  isActive p = false ∧ exitReason p = Some EOD
  ∧ ∃ final, last (seriesOf ceTimeSeries peTimeSeries (type p)) = Some final
             ∧ exitPrice p = Some (ltp final)
             ∧ exitTime p = Some (received_at final).

Definition inLoop (ceTimeSeries peTimeSeries : list OptionData)
    (p : Position) : Prop :=
  isOpen p ∨ closedByRule ceTimeSeries peTimeSeries p.

(** The reference [leg] (the result of a [find]) points at a position of
    type [t]. *)
Definition refersTo (t : OptionType) (leg : option nat) (ps : list Position)
    : Prop :=
  ∀ i, leg = Some i → (type <$> ps) !! i = Some t.

(** The invariant of the event loop, relative to the positions [ps0] the
    day started with: every position is open or was closed by a rule; the
    day's [madeAdjustment] is the loop's [adjustmentDone]; and the position
    list is either [ps0] with some of it closed, in which case the
    adjustment slot is used up exactly when the skip warning was logged, or
    [ps0] followed by one CALL/PUT pair, the slot being used up. *)
Record LoopInv (d : string) (ceTimeSeries peTimeSeries : list OptionData)
    (ps0 : list Position) (st : LoopState) : Prop := mkLoopInv {
  inv_positions :
    Forall (inLoop ceTimeSeries peTimeSeries) (positions (tradeDay st));
  inv_flag : madeAdjustment (tradeDay st) = adjustmentDone st;
  inv_shape :
    (static <$> positions (tradeDay st) = static <$> ps0
     ∧ (adjustmentDone st = true ↔ SkippingAdjustment d ∈ warnings st))
    ∨ (adjustmentDone st = true
       ∧ ∃ pair, static <$> positions (tradeDay st)
                 = (static <$> ps0) ++ (static <$> pair)
                 ∧ type <$> pair = [CE; PE]);
  inv_warnings : ∀ w, w ∈ warnings st → w = SkippingAdjustment d
}.

(** Where a position stands once the day is over: still open because its
    leg has no tick at all (and the warning was logged), closed by a rule
    during the day, or force-closed at the end of the day. *)
Definition settled (d : string) (ceTimeSeries peTimeSeries : list OptionData)
    (ws : list Warning) (p : Position) : Prop :=
  (isOpen p ∧ seriesOf ceTimeSeries peTimeSeries (type p) = []
   ∧ NoTimeSeries (type p) d ∈ ws)
  ∨ closedByRule ceTimeSeries peTimeSeries p
  ∨ closedAtEOD ceTimeSeries peTimeSeries p.

(** A position with its [pnl] field filled in when it has an exit price. *)
Definition withPnl (lot : float) (p : Position) : Position :=
  match positionPnl lot p with
  | Some v => set_pnl v p
  | None => p
  end.

(** ** Names for the inputs of a day *)

Definition cePriceOf (K : Constants) (D : DataService) (d : string)
    (strike : float) : float :=
  getOptionPrice D d (ENTRY_TIME K) strike CE.

Definition pePriceOf (K : Constants) (D : DataService) (d : string)
    (strike : float) : float :=
  getOptionPrice D d (ENTRY_TIME K) strike PE.

Definition ceSeriesOf (K : Constants) (D : DataService) (d : string)
    (strike : float) : list OptionData :=
  getOptionPriceTimeSeries D d (ENTRY_TIME K) (EXIT_TIME K) strike CE.

Definition peSeriesOf (K : Constants) (D : DataService) (d : string)
    (strike : float) : list OptionData :=
  getOptionPriceTimeSeries D d (ENTRY_TIME K) (EXIT_TIME K) strike PE.

(** The tick series of the leg a position belongs to. *)
Definition legSeries (K : Constants) (D : DataService) (d : string)
    (strike : float) (p : Position) : list OptionData :=
  seriesOf (ceSeriesOf K D d strike) (peSeriesOf K D d strike) (type p).

(** The state the event loop starts from. *)
Definition startState (K : Constants) (d : string)
    (strike cePrice pePrice : float) : LoopState :=
  {| tradeDay := initialTradeDay K d strike cePrice pePrice;
     adjustmentDone := false; warnings := [] |}.

(** The state the event loop of [processOptionPrices] ends in. *)
Definition loopResult (K : Constants) (D : DataService) (d : string)
    (strike : float) : LoopState :=
  eventLoop K d (ceSeriesOf K D d strike) (peSeriesOf K D d strike)
    (sortedTimes (ceSeriesOf K D d strike) (peSeriesOf K D d strike))
    (startState K d strike (cePriceOf K D d strike) (pePriceOf K D d strike)).

(** ** What one event can do to a position *)

(** [p'] is [p] closed at this event: [p] was active, its leg has a tick at
    this timestamp, and [p'] is [p] exited at that tick's price and this
    time by one of the rules of the loop. *)
Definition closedAtEvent (ceTimeSeries peTimeSeries : list OptionData)
    (time : Z) (p p' : Position) : Prop :=
  isActive p = true
  ∧ ∃ tk r, findTick (seriesOf ceTimeSeries peTimeSeries (type p)) time = Some tk
            ∧ r ≠ EOD
            ∧ p' = exitPosition (ltp tk) time r p.

Definition eventStep (ceTimeSeries peTimeSeries : list OptionData)
    (time : Z) (p p' : Position) : Prop :=
  p' = p ∨ closedAtEvent ceTimeSeries peTimeSeries time p p'.

(** The same, in terms of the references [ce] and [pe] of the iteration:
    the position at index [j] is untouched, or it is the one a reference
    points at and it was exited with the data of that leg. *)
Definition refStep (ce pe : option nat) (ceData peData : option OptionData)
    (time : Z) (j : nat) (p p' : Position) : Prop :=
  p' = p
  ∨ ∃ tk r, r ≠ EOD
            ∧ p' = exitPosition (ltp tk) time r p
            ∧ ((ce = Some j ∧ ceData = Some tk)
               ∨ (pe = Some j ∧ peData = Some tk)).

Definition refRel (ce pe : option nat) (ceData peData : option OptionData)
    (time : Z) (ps ps' : list Position) : Prop :=
  length ps' = length ps
  ∧ ∀ j p, ps !! j = Some p →
           ∃ p', ps' !! j = Some p' ∧ refStep ce pe ceData peData time j p p'.

(** What one iteration of the event loop can do to the loop state: the date
    and the strike stay; every position already there is untouched or closed
    at this event; and at most one CALL/PUT pair is appended, which happens
    only if no adjustment was made before, the timestamp is before the
    cutoff, some position was still active when the iteration began, all are
    inactive now, and both legs tick at this timestamp: the pair then enters
    at those two tick prices, at this time, at the day's strike. *)
Definition eventOutcome (K : Constants) (d : string)
    (ceTimeSeries peTimeSeries : list OptionData) (time : Z)
    (st st' : LoopState) : Prop :=
  date (tradeDay st') = date (tradeDay st)
  ∧ atmStrike (tradeDay st') = atmStrike (tradeDay st)
  ∧ (adjustmentDone st = true → adjustmentDone st' = true)
  ∧ ∃ ps' pair,
      positions (tradeDay st') = ps' ++ pair
      ∧ Forall2 (eventStep ceTimeSeries peTimeSeries time)
          (positions (tradeDay st)) ps'
      ∧ (adjustmentDone st' = adjustmentDone st
         ∨ (adjustmentDone st = false ∧ adjustmentDone st' = true
            ∧ (time < createDateTime K d (ADJUSTMENT_TIME K))%Z
            ∧ allExited ps' = true
            ∧ ∃ q, q ∈ positions (tradeDay st) ∧ isActive q = true))
      ∧ (pair = []
         ∨ (adjustmentDone st = false ∧ adjustmentDone st' = true
            ∧ ∃ c p,
                findTick ceTimeSeries time = Some c
                ∧ findTick peTimeSeries time = Some p
                ∧ pair = [ newPosition CE (ltp c) time (atmStrike (tradeDay st));
                           newPosition PE (ltp p) time (atmStrike (tradeDay st)) ])).

(** ** A richer invariant of the event loop *)

(** A closed position carries the price and the timestamp of one tick of
    its own leg. *)
Definition exitedAtTick (ceTimeSeries peTimeSeries : list OptionData)
    (p : Position) : Prop :=
  ∃ tk, tk ∈ seriesOf ceTimeSeries peTimeSeries (type p)
        ∧ exitPrice p = Some (ltp tk)
        ∧ exitTime p = Some (received_at tk).

(** Inside the loop a position has the day's strike and no [pnl] yet; it is
    open, or it was closed by a rule at a tick of its leg. *)
Definition wellFormed (ceTimeSeries peTimeSeries : list OptionData)
    (strike : float) (p : Position) : Prop :=
  strikePrice p = strike ∧ pnl p = None
  ∧ (isOpen p
     ∨ (isActive p = false
        ∧ exitedAtTick ceTimeSeries peTimeSeries p
        ∧ ∃ r, exitReason p = Some r ∧ r ≠ EOD)).

(** The position list is the entry pair alone, or the entry pair, both legs
    closed, followed by the adjustment pair, which entered at the prices both
    legs traded at at one timestamp before the cutoff, the timestamp at which
    the last entry leg was closed. *)
Inductive DayShape (K : Constants) (d : string)
    (ceTimeSeries peTimeSeries : list OptionData)
    (strike cePrice pePrice : float) (st : LoopState) : Prop :=
| EntryPairOnly p0 p1 :
    positions (tradeDay st) = [p0; p1] →
    static p0 = (CE, cePrice, createDateTime K d (ENTRY_TIME K), strike) →
    static p1 = (PE, pePrice, createDateTime K d (ENTRY_TIME K), strike) →
    DayShape K d ceTimeSeries peTimeSeries strike cePrice pePrice st
| WithAdjustment p0 p1 p2 p3 c p time :
    positions (tradeDay st) = [p0; p1; p2; p3] →
    static p0 = (CE, cePrice, createDateTime K d (ENTRY_TIME K), strike) →
    static p1 = (PE, pePrice, createDateTime K d (ENTRY_TIME K), strike) →
    isActive p0 = false → isActive p1 = false →
    exitTime p0 = Some time ∨ exitTime p1 = Some time →
    findTick ceTimeSeries time = Some c →
    findTick peTimeSeries time = Some p →
    (time < createDateTime K d (ADJUSTMENT_TIME K))%Z →
    static p2 = (CE, ltp c, time, strike) →
    static p3 = (PE, ltp p, time, strike) →
    adjustmentDone st = true →
    DayShape K d ceTimeSeries peTimeSeries strike cePrice pePrice st.

Record DayInv (K : Constants) (d : string)
    (ceTimeSeries peTimeSeries : list OptionData)
    (strike cePrice pePrice : float) (st : LoopState) : Prop := mkDayInv {
  day_date : date (tradeDay st) = d;
  day_strike : atmStrike (tradeDay st) = strike;
  day_wellFormed :
    Forall (wellFormed ceTimeSeries peTimeSeries strike)
      (positions (tradeDay st));
  day_shape : DayShape K d ceTimeSeries peTimeSeries strike cePrice pePrice st;
  day_ticks : adjustmentDone st = true →
              ceTimeSeries ≠ [] ∧ peTimeSeries ≠ []
}.

(** ** topicService.getRoundValue *)

Definition getRoundValue (indexName : string) : float :=
  let u := toUpperCase indexName in
  if String.eqb u "BANKNIFTY" then 100%float
  else if String.eqb u "NIFTY" then 50%float
  else if String.eqb u "FINNIFTY" then 50%float
  else if String.eqb u "MIDCPNIFTY" then 25%float
  else 100%float.

(** ** More sample days *)

(** Entry 100/100; the call falls to 60 at [t1]; the put never ticks. *)
Definition callOnly : DataService :=
  fixedDay (Some 50000%float) 100 100 [tick t1 60] [].

(** A data service with a strike on one date only. *)
Definition oneGoodDay (good : string) : DataService :=
  {| getATMStrike := λ d _, if String.eqb d good then Some 50000%float else None;
     getOptionPrice := λ _ _ _ _, 100%float;
     getOptionPriceTimeSeries :=
       λ _ _ _ _ _, [tick t1 60; tick t2 40; tick t3 50] |}.

(** The ticks of [dropTwice], for either leg. *)
Definition dropTicks : list OptionData :=
  [tick t1 60; tick t2 40; tick t3 50].

Definition earlierDate : string := "2025-05-22".

(** ** The order of exits and entries in time *)

(** Every exit recorded so far, and the entry of every position after the
    first two, happened strictly before [t]. *)
Definition marksBelow (t : Z) (ps : list Position) : Prop :=
  Forall (λ p, ∀ x, exitTime p = Some x → (x < t)%Z) ps
  ∧ Forall (λ p, (entryTime p < t)%Z) (drop 2 ps).

(** With an adjustment pair in the list: the entry legs were closed no later
    than the pair was entered, the two legs of the pair entered together, and
    an exit of a leg of the pair is strictly later than its entry. *)
Definition inOrder (ps : list Position) : Prop :=
  match ps with
  | [p0; p1; p2; p3] =>
      (∀ x, exitTime p0 = Some x → (x ≤ entryTime p2)%Z)
      ∧ (∀ x, exitTime p1 = Some x → (x ≤ entryTime p2)%Z)
      ∧ entryTime p3 = entryTime p2
      ∧ (∀ x, exitTime p2 = Some x → (entryTime p2 < x)%Z)
      ∧ (∀ x, exitTime p3 = Some x → (entryTime p2 < x)%Z)
  | _ => True
  end.

(** ** timeUtils.getLastNTradingDays *)

(** A [moment] in the fixed zone Asia/Kolkata, which has no daylight saving,
    is followed here by its calendar day, counted in days from 1970-01-01;
    [subtract(1, "day")] is then [m - 1], and [day()] is the day of the week,
    0 for Sunday (1970-01-01 was a Thursday). *)
Definition dayOfWeek (m : Z) : Z := ((m + 4) mod 7)%Z.

(** [day >= 1 && day <= 5] *)
Definition isWeekday (m : Z) : bool :=
  ((1 <=? dayOfWeek m)%Z && (dayOfWeek m <=? 5)%Z)%bool.

(** The loop [while (result.length < n)], with a bound on the number of
    iterations. *)
Fixpoint tradingDaysLoop (fuel : nat) (n : Z) (m : Z) (result : list Z)
    : option (list Z) :=
  if (Z.of_nat (length result) <? n)%Z then
    match fuel with
    | O => None
    | S fuel' =>
        tradingDaysLoop fuel' n (m - 1)
          (if isWeekday m then result ++ [m] else result)
    end
  else Some result.




(** Entry 100/100; the call ticks at 100 at [t1] and at 70 at the first
    instant of year 10000, the put at 70 at [t1]. *)
Definition lateTick : DataService :=
  fixedDay (Some 50000%float) 100 100
    [tick t1 100; tick yearTenThousand 70] [tick t1 70].
(** * Properties *)

(** ** The backtest runner *)

Section Runner.
Context (K : Constants) (dataService : DataService).

Lemma runDays_days ds acc :
  days (runDays K dataService ds acc)
  = days acc ++ ((λ d, fst (processTradingDay K dataService d)) <$> ds).
Proof.
  revert acc. induction ds as [|d ds IH]; intros acc; simpl.
  - by rewrite app_nil_r.
  - rewrite IH. simpl. by rewrite <- app_assoc.
Qed.

Lemma runDays_counts ds acc :
  let new := (λ d, fst (processTradingDay K dataService d)) <$> ds in
  winningDays (runDays K dataService ds acc)
  = winningDays acc + length (List.filter isWinning new)
  ∧ losingDays (runDays K dataService ds acc)
    = losingDays acc + length (List.filter (λ d, negb (isWinning d)) new).
Proof.
  cbv zeta. revert acc. induction ds as [|d ds IH]; intros acc; simpl.
  - split; lia.
  - destruct (IH
      {| days := days acc ++ [fst (processTradingDay K dataService d)];
         resultTotalPnl :=
           (resultTotalPnl acc
            + totalPnl (fst (processTradingDay K dataService d)))%float;
         winningDays :=
           if geq (totalPnl (fst (processTradingDay K dataService d))) 0%float
           then S (winningDays acc) else winningDays acc;
         losingDays :=
           if geq (totalPnl (fst (processTradingDay K dataService d))) 0%float
           then losingDays acc else S (losingDays acc);
         winRate := winRate acc;
         averageDailyPnl := averageDailyPnl acc |}) as [Hw Hl].
    rewrite Hw, Hl. simpl. unfold isWinning, fmap.
    destruct (geq _ _); simpl; split; lia.
Qed.

Lemma runDays_total ds acc :
  resultTotalPnl (runDays K dataService ds acc)
  = foldl (λ a v, (a + v)%float) (resultTotalPnl acc)
      (totalPnl <$> ((λ d, fst (processTradingDay K dataService d)) <$> ds)).
Proof.
  revert acc. induction ds as [|d ds IH]; intros acc; simpl; [done|].
  by rewrite IH.
Qed.

Lemma filter_split_length {A} (f : A → bool) (l : list A) :
  length (List.filter f l) + length (List.filter (λ x, negb (f x)) l)
  = length l.
Proof.
  induction l as [|x l IH]; simpl; [done|].
  destruct (f x); simpl; lia.
Qed.

(** C10: after the runner completes, every processed day is in exactly one
    of the two buckets: [winningDays] counts the days whose total is [>= 0],
    [losingDays] the others, so their sum is the number of days in the
    result (one per input date); and the result's total is the sum of the
    per-day totals. *)
Theorem runBacktest_counts_and_total (ds : list string) :
  let r := runBacktest K dataService ds in
  winningDays r + losingDays r = length (days r)
  ∧ length (days r) = length ds
  ∧ winningDays r = length (List.filter isWinning (days r))
  ∧ losingDays r = length (List.filter (λ d, negb (isWinning d)) (days r))
  ∧ resultTotalPnl r = sumNumbers (totalPnl <$> days r).
Proof.
  unfold runBacktest. simpl.
  pose proof (runDays_days ds (emptyResult)) as Hd.
  pose proof (runDays_counts ds (emptyResult)) as [Hw Hl].
  pose proof (runDays_total ds (emptyResult)) as Ht.
  simpl in Hd, Hw, Hl, Ht. rewrite Hd, Hw, Hl, Ht.
  repeat split.
  - apply filter_split_length.
  - by rewrite length_fmap.
Qed.

(** C5, as the code has it: on an empty date list the runner returns
    normally, with no days, zero totals and counters, and [NaN] for both
    [winRate] and [averageDailyPnl]. *)
Theorem runBacktest_empty :
  runBacktest K dataService []
  = {| days := []; resultTotalPnl := 0%float;
       winningDays := 0; losingDays := 0;
       winRate := nan; averageDailyPnl := nan |}.
Proof. reflexivity. Qed.

End Runner.

(** C5 fails as stated: on the empty date list the runner raises nothing and
    hands back a result whose [winRate] and [averageDailyPnl] are [NaN]. *)
Lemma runBacktest_empty_is_nan :
  let r := runBacktest defaults bothDrop [] in
  days r = [] ∧ is_nan (winRate r) = true ∧ is_nan (averageDailyPnl r) = true.
Proof. vm_compute. done. Qed.

(** ** Closing a position *)

Lemma static_exitPosition price time reason p :
  static (exitPosition price time reason p) = static p.
Proof. done. Qed.

(** A second call overwrites the first: only the last reason is kept. *)
Lemma exitPosition_twice price time reason price' time' reason' p :
  exitPosition price time reason (exitPosition price' time' reason' p)
  = exitPosition price time reason p.
Proof. done. Qed.

Lemma static_exitAt i price time reason ps :
  static <$> exitAt i price time reason ps = static <$> ps.
Proof.
  unfold exitAt.
  rewrite (list_fmap_alter static (exitPosition price time reason) id)
    by (apply Forall_forall; intros; apply static_exitPosition).
  by apply list_alter_id.
Qed.

Lemma static_type (ps qs : list Position) :
  static <$> ps = static <$> qs → type <$> ps = type <$> qs.
Proof.
  intros H.
  assert (Hc : ∀ l : list Position, type <$> l = (λ s, s.1.1.1) <$> (static <$> l)).
  { intros l. rewrite <- list_fmap_compose. done. }
  by rewrite !Hc, H.
Qed.

Lemma lookup_exitAt i j price time reason ps :
  exitAt i price time reason ps !! j
  = if decide (i = j) then exitPosition price time reason <$> ps !! j
    else ps !! j.
Proof.
  unfold exitAt. rewrite list_lookup_alter.
  by destruct (decide (i = j)) as [->|].
Qed.

Lemma findActive_Some t (ps : list Position) i :
  findActive t ps = Some i →
  ∃ p, ps !! i = Some p ∧ type p = t ∧ isActive p = true.
Proof.
  unfold findActive. intros ([j p] & Hf & ->)%fmap_Some.
  apply list_find_Some in Hf as (? & [? ?] & _). eauto.
Qed.

Lemma findTick_Some series time d :
  findTick series time = Some d → d ∈ series ∧ received_at d = time.
Proof.
  unfold findTick. intros ([j x] & Hf & ->)%fmap_Some.
  apply list_find_Some in Hf as (Hl & ? & _).
  split; [|done]. by eapply list_elem_of_lookup_2.
Qed.

(** ** The exits of one event *)

Section Exits.
Context (K : Constants) (ceTimeSeries peTimeSeries : list OptionData).

Lemma static_exitLeg leg data time reason ps :
  static <$> exitLeg leg data time reason ps = static <$> ps.
Proof.
  unfold exitLeg. destruct leg, data; try done. apply static_exitAt.
Qed.

Lemma static_combinedChecks ce pe ceData peData time ps :
  static <$> combinedChecks K ce pe ceData peData time ps = static <$> ps.
Proof.
  unfold combinedChecks.
  repeat case_match; by rewrite ?static_exitLeg.
Qed.

Lemma static_individualSL leg data time ps :
  static <$> individualSL K leg data time ps = static <$> ps.
Proof.
  unfold individualSL. repeat case_match; try done. apply static_exitAt.
Qed.

Lemma static_applyExits ce pe ceData peData time ps :
  static <$> applyExits K ce pe ceData peData time ps = static <$> ps.
Proof.
  unfold applyExits.
  by rewrite !static_individualSL, static_combinedChecks.
Qed.

Lemma refersTo_static t leg (ps qs : list Position) :
  static <$> ps = static <$> qs → refersTo t leg ps → refersTo t leg qs.
Proof.
  intros Hs%static_type Hr i Hi. rewrite <- Hs. by apply Hr.
Qed.

Lemma findActive_refersTo t (ps : list Position) :
  refersTo t (findActive t ps) ps.
Proof.
  intros i (p & Hp & Ht & _)%findActive_Some.
  by rewrite list_lookup_fmap, Hp, <- Ht.
Qed.

Lemma findTick_nonempty series time :
  is_Some (findTick series time) → series ≠ [].
Proof.
  intros [x [Hx _]%findTick_Some] ->. by apply not_elem_of_nil in Hx.
Qed.

Lemma exitAt_inLoop t i price time reason (ps : list Position) :
  reason ≠ EOD →
  (type <$> ps) !! i = Some t →
  seriesOf ceTimeSeries peTimeSeries t ≠ [] →
  Forall (inLoop ceTimeSeries peTimeSeries) ps →
  Forall (inLoop ceTimeSeries peTimeSeries) (exitAt i price time reason ps).
Proof.
  intros Hr Ht Hs Hps. unfold exitAt. apply Forall_alter; [done|].
  intros p Hp _. right.
  rewrite list_lookup_fmap, Hp in Ht. simplify_eq/=.
  repeat split; simpl; eauto.
Qed.

Lemma exitLeg_inLoop t leg data time reason ps :
  reason ≠ EOD →
  refersTo t leg ps →
  (is_Some data → seriesOf ceTimeSeries peTimeSeries t ≠ []) →
  Forall (inLoop ceTimeSeries peTimeSeries) ps →
  Forall (inLoop ceTimeSeries peTimeSeries) (exitLeg leg data time reason ps).
Proof.
  intros Hr Hl Hd Hps. unfold exitLeg.
  destruct leg as [i|], data as [x|]; try done.
  eapply exitAt_inLoop; eauto.
Qed.

Lemma individualSL_inLoop t leg data time ps :
  refersTo t leg ps →
  (is_Some data → seriesOf ceTimeSeries peTimeSeries t ≠ []) →
  Forall (inLoop ceTimeSeries peTimeSeries) ps →
  Forall (inLoop ceTimeSeries peTimeSeries) (individualSL K leg data time ps).
Proof.
  intros Hl Hd Hps. unfold individualSL.
  destruct leg as [i|], data as [x|]; try done.
  destruct (ps !! i); [|done]. case_match; [|done].
  eapply exitAt_inLoop; eauto.
Qed.

Lemma combinedChecks_inLoop ce pe ceData peData time ps :
  refersTo CE ce ps → refersTo PE pe ps →
  (is_Some ceData → ceTimeSeries ≠ []) →
  (is_Some peData → peTimeSeries ≠ []) →
  Forall (inLoop ceTimeSeries peTimeSeries) ps →
  Forall (inLoop ceTimeSeries peTimeSeries)
    (combinedChecks K ce pe ceData peData time ps).
Proof.
  intros Hce Hpe Hcd Hpd Hps. unfold combinedChecks.
  repeat case_match; try done.
  - apply (exitLeg_inLoop PE); try done.
    + eapply refersTo_static; [|done]. by rewrite static_exitLeg.
    + by apply (exitLeg_inLoop CE).
  - apply (exitLeg_inLoop PE); try done.
    + eapply refersTo_static; [|done]. by rewrite static_exitLeg.
    + by apply (exitLeg_inLoop CE).
Qed.

Lemma applyExits_inLoop ce pe ceData peData time ps :
  refersTo CE ce ps → refersTo PE pe ps →
  (is_Some ceData → ceTimeSeries ≠ []) →
  (is_Some peData → peTimeSeries ≠ []) →
  Forall (inLoop ceTimeSeries peTimeSeries) ps →
  Forall (inLoop ceTimeSeries peTimeSeries)
    (applyExits K ce pe ceData peData time ps).
Proof.
  intros Hce Hpe Hcd Hpd Hps. unfold applyExits.
  apply (individualSL_inLoop PE); try done.
  { eapply refersTo_static; [|done].
    by rewrite static_individualSL, static_combinedChecks. }
  apply (individualSL_inLoop CE); try done.
  { eapply refersTo_static; [|done]. by rewrite static_combinedChecks. }
  by apply combinedChecks_inLoop.
Qed.

End Exits.

(** ** The event loop *)

Section EventLoop.
Context (K : Constants) (d : string).
Context (ceTimeSeries peTimeSeries : list OptionData).

(** The two ways an iteration can go. *)
Lemma processEvent_cases timeStr st :
  let ps := positions (tradeDay st) in
  let ce := findActive CE ps in
  let pe := findActive PE ps in
  let ceData := findTick ceTimeSeries timeStr in
  let peData := findTick peTimeSeries timeStr in
  (ce = None ∧ pe = None
   ∧ processEvent K d ceTimeSeries peTimeSeries timeStr st = (Break, st))
  ∨ (¬ (ce = None ∧ pe = None)
     ∧ processEvent K d ceTimeSeries peTimeSeries timeStr st
       = (Next,
          adjustment K d ceData peData timeStr
            {| tradeDay :=
                 set_positions (applyExits K ce pe ceData peData timeStr ps)
                   (tradeDay st);
               adjustmentDone := adjustmentDone st;
               warnings := warnings st |})).
Proof.
  cbv zeta. unfold processEvent.
  destruct (findActive CE _), (findActive PE _);
    [right; split; [by intros [? ?]|done] ..|by left].
Qed.

Lemma adjustment_inv ps0 ceData peData time st :
  LoopInv d ceTimeSeries peTimeSeries ps0 st →
  LoopInv d ceTimeSeries peTimeSeries ps0
    (adjustment K d ceData peData time st).
Proof.
  intros Hinv. unfold adjustment.
  destruct (adjustmentDone st) eqn:Hdone; simpl; [done|].
  case_bool_decide; [|done].
  destruct (allExited _); [|done].
  destruct Hinv as [Hps Hflag Hshape Hw]. rewrite Hdone in Hshape.
  destruct Hshape as [[Hst Hiff]|[? _]]; [|done].
  assert (Hskip : static <$> positions (tradeDay st) = static <$> ps0
                  ∧ (true = true
                     ↔ SkippingAdjustment d ∈ warnings st ++ [SkippingAdjustment d])).
  { split; [done|]. split; [|done]. intros _.
    rewrite elem_of_app, list_elem_of_singleton. by right. }
  assert (Hws : ∀ w, w ∈ warnings st ++ [SkippingAdjustment d]
                     → w = SkippingAdjustment d).
  { intros w. rewrite elem_of_app, list_elem_of_singleton.
    intros [?|?]; auto. }
  destruct ceData as [c|], peData as [p|]; constructor; simpl;
    try done; try (by left).
  - apply Forall_app. split; [done|].
    constructor; [by left|]. constructor; [by left|]. constructor.
  - right. split; [done|].
    exists [newPosition CE (ltp c) time (atmStrike (tradeDay st));
            newPosition PE (ltp p) time (atmStrike (tradeDay st))].
    split; [|done]. by rewrite fmap_app, Hst.
Qed.

Lemma processEvent_inv ps0 timeStr st :
  LoopInv d ceTimeSeries peTimeSeries ps0 st →
  LoopInv d ceTimeSeries peTimeSeries ps0
    (processEvent K d ceTimeSeries peTimeSeries timeStr st).2.
Proof.
  intros Hinv.
  destruct (processEvent_cases timeStr st) as [(_ & _ & ->)|(_ & ->)];
    [done|]. simpl.
  apply adjustment_inv. destruct Hinv as [Hps Hflag Hshape Hw].
  constructor; simpl; try done.
  - apply applyExits_inLoop;
      [apply findActive_refersTo | apply findActive_refersTo
      | apply findTick_nonempty | apply findTick_nonempty | done].
  - by rewrite static_applyExits.
Qed.

(** Whatever one iteration preserves, the loop preserves. *)
Lemma eventLoop_preserves (I : LoopState → Prop) :
  (∀ timeStr st,
     I st → I (processEvent K d ceTimeSeries peTimeSeries timeStr st).2) →
  ∀ times st, I st → I (eventLoop K d ceTimeSeries peTimeSeries times st).
Proof.
  intros Hstep times. induction times as [|timeStr rest IH]; intros st Hst;
    simpl; [done|].
  specialize (Hstep timeStr st Hst).
  destruct (processEvent _ _ _ _ _ _) as [[|] st']; simpl in *; auto.
Qed.

Lemma eventLoop_inv ps0 times st :
  LoopInv d ceTimeSeries peTimeSeries ps0 st →
  LoopInv d ceTimeSeries peTimeSeries ps0
    (eventLoop K d ceTimeSeries peTimeSeries times st).
Proof.
  apply (eventLoop_preserves (LoopInv d ceTimeSeries peTimeSeries ps0)).
  intros. by apply processEvent_inv.
Qed.

Lemma initial_inv strike cePrice pePrice :
  LoopInv d ceTimeSeries peTimeSeries
    (initialPositions K d strike cePrice pePrice)
    {| tradeDay := initialTradeDay K d strike cePrice pePrice;
       adjustmentDone := false; warnings := [] |}.
Proof.
  constructor; simpl.
  - constructor; [by left|]. constructor; [by left|]. constructor.
  - done.
  - left. split; [done|]. split; [done|]. by intros ?%not_elem_of_nil.
  - by intros w ?%not_elem_of_nil.
Qed.

End EventLoop.

(** ** The end-of-day loop *)

Section EndOfDay.
Context (d : string) (ceTimeSeries peTimeSeries : list OptionData).

Lemma exitRemaining_positions ps :
  (exitRemaining d ceTimeSeries peTimeSeries ps).1
  = (λ p, (exitAtEOD d ceTimeSeries peTimeSeries p).1) <$> ps.
Proof.
  induction ps as [|p ps IH]; simpl; [done|].
  destruct (exitAtEOD _ _ _ p) as [p' w].
  destruct (exitRemaining _ _ _ ps) as [ps' ws]. simpl in *. by rewrite IH.
Qed.

Lemma exitRemaining_warnings ps w :
  w ∈ (exitRemaining d ceTimeSeries peTimeSeries ps).2
  ↔ ∃ p, p ∈ ps ∧ w ∈ (exitAtEOD d ceTimeSeries peTimeSeries p).2.
Proof.
  induction ps as [|p ps IH]; simpl.
  - split; [by intros ?%not_elem_of_nil|].
    by intros (p & ?%not_elem_of_nil & _).
  - destruct (exitAtEOD _ _ _ p) as [p' w'] eqn:Hp.
    destruct (exitRemaining _ _ _ ps) as [ps' ws]. simpl in *.
    rewrite elem_of_app, IH. split.
    + intros [Hw|(q & Hq & Hw)].
      * exists p. rewrite Hp. split; [apply elem_of_cons; by left|done].
      * exists q. split; [apply elem_of_cons; by right|done].
    + intros (q & [->|Hq]%elem_of_cons & Hw).
      * left. by rewrite Hp in Hw.
      * right. eauto.
Qed.

(** What the end-of-day step does to one position. *)
Lemma exitAtEOD_cases pos :
  let r := exitAtEOD d ceTimeSeries peTimeSeries pos in
  (isActive pos = false ∧ r = (pos, []))
  ∨ (isActive pos = true
     ∧ seriesOf ceTimeSeries peTimeSeries (type pos) = []
     ∧ r = (pos, [NoTimeSeries (type pos) d]))
  ∨ (isActive pos = true
     ∧ ∃ final,
         last (seriesOf ceTimeSeries peTimeSeries (type pos)) = Some final
         ∧ r = (exitPosition (ltp final) (received_at final) EOD pos, [])).
Proof.
  cbv zeta. unfold exitAtEOD.
  change (match type pos with CE => ceTimeSeries | PE => peTimeSeries end)
    with (seriesOf ceTimeSeries peTimeSeries (type pos)).
  destruct (isActive pos); [|by left].
  destruct (last _) as [final|] eqn:Hlast.
  - right. right. eauto.
  - right. left. by apply last_None in Hlast.
Qed.

Lemma static_exitAtEOD pos :
  static (exitAtEOD d ceTimeSeries peTimeSeries pos).1 = static pos.
Proof.
  destruct (exitAtEOD_cases pos)
    as [(_ & ->)|[(_ & _ & ->)|(_ & final & _ & ->)]]; done.
Qed.

Lemma static_exitRemaining ps :
  static <$> (exitRemaining d ceTimeSeries peTimeSeries ps).1 = static <$> ps.
Proof.
  rewrite exitRemaining_positions, <- list_fmap_compose.
  apply list_fmap_ext. intros i p _. apply static_exitAtEOD.
Qed.

Lemma exitRemaining_only_warns ps w :
  w ∈ (exitRemaining d ceTimeSeries peTimeSeries ps).2 →
  ∃ t, w = NoTimeSeries t d.
Proof.
  intros (p & _ & Hw)%exitRemaining_warnings.
  destruct (exitAtEOD_cases p)
    as [(_ & Hr)|[(_ & _ & Hr)|(_ & final & _ & Hr)]];
    rewrite Hr in Hw; simpl in Hw.
  - by apply not_elem_of_nil in Hw.
  - apply list_elem_of_singleton in Hw. eauto.
  - by apply not_elem_of_nil in Hw.
Qed.

Lemma exitRemaining_settled ps :
  Forall (inLoop ceTimeSeries peTimeSeries) ps →
  Forall (settled d ceTimeSeries peTimeSeries
            (exitRemaining d ceTimeSeries peTimeSeries ps).2)
    (exitRemaining d ceTimeSeries peTimeSeries ps).1.
Proof.
  intros Hps. rewrite exitRemaining_positions.
  apply Forall_fmap, Forall_forall. intros p Hp. simpl.
  rewrite Forall_forall in Hps. specialize (Hps p Hp).
  pose proof (exitRemaining_warnings ps (NoTimeSeries (type p) d)) as Hw.
  destruct (exitAtEOD_cases p)
    as [(Hact & Hr)|[(Hact & Hs & Hr)|(Hact & final & Hlast & Hr)]];
    rewrite Hr in *; simpl.
  - destruct Hps as [[Ho _]|Hc]; [congruence|]. right. by left.
  - destruct Hps as [Ho|[Hc _]]; [|congruence]. left.
    split; [done|]. split; [done|]. apply Hw. exists p.
    rewrite Hr. split; [done|]. by apply list_elem_of_singleton.
  - right. right. split; [done|]. split; [done|]. exists final. by simpl.
Qed.

End EndOfDay.

(** ** calculateDayPnL *)

Section Aggregator.
Context (K : Constants).

Lemma calculateDayPnL_from_spec total ps :
  calculateDayPnL_from K total ps
  = (withPnl (lotSize K) <$> ps,
     foldl (λ acc v, (acc + v)%float) total
       (omap (positionPnl (lotSize K)) ps)).
Proof.
  revert total. induction ps as [|p ps IH]; intros total; simpl; [done|].
  unfold withPnl, positionPnl at 1 3.
  destruct (exitPrice p) as [x|]; simpl; by rewrite IH.
Qed.

Lemma calculateDayPnL_spec day :
  calculateDayPnL K day
  = (withPnl (lotSize K) <$> positions day,
     sumOfPositionPnl (lotSize K) (positions day)).
Proof. apply calculateDayPnL_from_spec. Qed.

Lemma positionPnl_withPnl lot p :
  positionPnl lot (withPnl lot p) = positionPnl lot p.
Proof. unfold withPnl. by destruct (positionPnl lot p) eqn:E. Qed.

Lemma sumOfPositionPnl_withPnl lot ps :
  sumOfPositionPnl lot (withPnl lot <$> ps) = sumOfPositionPnl lot ps.
Proof.
  unfold sumOfPositionPnl. f_equal.
  induction ps as [|p ps IH]; csimpl; [done|].
  by rewrite positionPnl_withPnl, IH.
Qed.

Lemma static_withPnl lot p : static (withPnl lot p) = static p.
Proof. unfold withPnl. by destruct (positionPnl lot p). Qed.

Lemma static_withPnl_list lot (ps : list Position) :
  static <$> (withPnl lot <$> ps) = static <$> ps.
Proof.
  rewrite <- list_fmap_compose. apply list_fmap_ext.
  intros i p _. apply static_withPnl.
Qed.

End Aggregator.

(** ** A whole trading day *)

Section TradingDay.
Context (K : Constants) (dataService : DataService) (d : string).

(** [processTradingDay] on a day with a strike, spelled out. *)
Lemma processTradingDay_found strike :
  strikeFound (getATMStrike dataService d (ENTRY_TIME K)) = Some strike →
  let st := loopResult K dataService d strike in
  let r := exitRemaining d (ceSeriesOf K dataService d strike)
             (peSeriesOf K dataService d strike) (positions (tradeDay st)) in
  let total := sumOfPositionPnl (lotSize K) r.1 in
  processTradingDay K dataService d
  = ({| date := date (tradeDay st);
        atmStrike := atmStrike (tradeDay st);
        positions := withPnl (lotSize K) <$> r.1;
        totalPnl := total;
        madeAdjustment := madeAdjustment (tradeDay st);
        dayPnlPercent :=
          (total / ((cePriceOf K dataService d strike
                     + pePriceOf K dataService d strike) * lotSize K)
           * 100)%float |},
     warnings st ++ r.2).
Proof.
  intros Hs. cbv zeta. unfold processTradingDay. rewrite Hs.
  unfold processOptionPrices.
  change (eventLoop K d _ _ _ _) with (loopResult K dataService d strike).
  change (getOptionPriceTimeSeries dataService d (ENTRY_TIME K) (EXIT_TIME K)
            strike CE) with (ceSeriesOf K dataService d strike).
  change (getOptionPriceTimeSeries dataService d (ENTRY_TIME K) (EXIT_TIME K)
            strike PE) with (peSeriesOf K dataService d strike).
  destruct (exitRemaining _ _ _ _) as [ps ws]. simpl.
  by rewrite calculateDayPnL_spec.
Qed.

Lemma processTradingDay_skipped :
  strikeFound (getATMStrike dataService d (ENTRY_TIME K)) = None →
  processTradingDay K dataService d = (skippedDay d, []).
Proof. intros Hs. unfold processTradingDay. by rewrite Hs. Qed.

Lemma loopResult_inv strike :
  LoopInv d (ceSeriesOf K dataService d strike)
    (peSeriesOf K dataService d strike)
    (initialPositions K d strike (cePriceOf K dataService d strike)
       (pePriceOf K dataService d strike))
    (loopResult K dataService d strike).
Proof. apply eventLoop_inv, initial_inv. Qed.

Lemma settled_withPnl ce pe ws lot p :
  settled d ce pe ws p → settled d ce pe ws (withPnl lot p).
Proof.
  unfold withPnl. by destruct (positionPnl lot p).
Qed.

(** The positions a day with a strike ends with: the original pair, then at
    most one adjustment pair; each of them settled. *)
Lemma processTradingDay_positions strike :
  strikeFound (getATMStrike dataService d (ENTRY_TIME K)) = Some strike →
  let st := loopResult K dataService d strike in
  let ps0 := initialPositions K d strike (cePriceOf K dataService d strike)
               (pePriceOf K dataService d strike) in
  let day := (processTradingDay K dataService d).1 in
  let ws := (processTradingDay K dataService d).2 in
  madeAdjustment day = adjustmentDone st
  ∧ static <$> positions day = static <$> positions (tradeDay st)
  ∧ Forall (settled d (ceSeriesOf K dataService d strike)
              (peSeriesOf K dataService d strike) ws) (positions day)
  ∧ (SkippingAdjustment d ∈ ws ↔ SkippingAdjustment d ∈ warnings st).
Proof.
  intros Hs. cbv zeta. rewrite (processTradingDay_found strike Hs). simpl.
  destruct (loopResult_inv strike) as [Hps Hflag Hshape Hw].
  split; [done|]. split; [by rewrite static_withPnl_list, static_exitRemaining|].
  split.
  - apply Forall_fmap, Forall_forall. intros p Hp. simpl.
    apply settled_withPnl.
    pose proof (exitRemaining_settled d _ _ _ Hps) as Hset.
    rewrite Forall_forall in Hset. specialize (Hset p Hp).
    destruct Hset as [(Ho & Hs' & Hin)|[?|?]];
      [left|right; by left|right; by right].
    split; [done|]. split; [done|]. apply elem_of_app. by right.
  - rewrite elem_of_app. split; [|by left].
    intros [?|[t Ht]%exitRemaining_only_warns]; done.
Qed.

End TradingDay.

(** ** The shape of the position list *)

Lemma LoopInv_types d ce pe (ps0 : list Position) st :
  LoopInv d ce pe ps0 st →
  (type <$> positions (tradeDay st) = type <$> ps0
   ∧ (adjustmentDone st = true ↔ SkippingAdjustment d ∈ warnings st))
  ∨ (type <$> positions (tradeDay st) = (type <$> ps0) ++ [CE; PE]
     ∧ adjustmentDone st = true).
Proof.
  intros [_ _ [[Hst Hiff]|(Hdone & pair & Hst & Hpair)] _].
  - left. split; [by apply static_type|done].
  - right. split; [|done].
    rewrite <- fmap_app in Hst. apply static_type in Hst.
    by rewrite Hst, fmap_app, Hpair.
Qed.

Lemma LoopInv_prefix d ce pe (ps0 : list Position) st :
  LoopInv d ce pe ps0 st →
  ∃ rest, static <$> positions (tradeDay st) = (static <$> ps0) ++ rest.
Proof.
  intros [_ _ [[Hst _]|(_ & pair & Hst & _)] _].
  - exists []. by rewrite app_nil_r.
  - eauto.
Qed.

Section Claims.
Context (K : Constants) (dataService : DataService) (d : string).

(** C7: at most one adjustment per trade day.  Whatever the event sequence,
    the event loop started on the two entry positions ends with the position
    list CALL, PUT or CALL, PUT, CALL, PUT, whose first two entries are the
    entry pair; and so does the day [processTradingDay] returns when a
    strike was found (without a strike the day has no position).  A third
    pair is never appended. *)
Theorem at_most_one_adjustment :
  (∀ strike cePrice pePrice ceTimeSeries peTimeSeries times,
     let ps := positions (tradeDay
                 (eventLoop K d ceTimeSeries peTimeSeries times
                    (startState K d strike cePrice pePrice))) in
     take 2 (static <$> ps)
     = static <$> initialPositions K d strike cePrice pePrice
     ∧ (type <$> ps = [CE; PE] ∨ type <$> ps = [CE; PE; CE; PE]))
  ∧ (let day := (processTradingDay K dataService d).1 in
     match strikeFound (getATMStrike dataService d (ENTRY_TIME K)) with
     | None => positions day = []
     | Some strike =>
         take 2 (static <$> positions day)
         = static <$> initialPositions K d strike
                        (cePriceOf K dataService d strike)
                        (pePriceOf K dataService d strike)
         ∧ (type <$> positions day = [CE; PE]
            ∨ type <$> positions day = [CE; PE; CE; PE])
     end).
Proof.
  assert (Hloop : ∀ strike cePrice pePrice ceTimeSeries peTimeSeries times,
     let ps := positions (tradeDay
                 (eventLoop K d ceTimeSeries peTimeSeries times
                    (startState K d strike cePrice pePrice))) in
     take 2 (static <$> ps)
     = static <$> initialPositions K d strike cePrice pePrice
     ∧ (type <$> ps = [CE; PE] ∨ type <$> ps = [CE; PE; CE; PE])).
  { intros strike cePrice pePrice ce pe times ps.
    pose proof (eventLoop_inv K d ce pe _ times _
                  (initial_inv K d ce pe strike cePrice pePrice)) as Hinv.
    split.
    - destruct (LoopInv_prefix _ _ _ _ _ Hinv) as [rest Hrest].
      subst ps. unfold startState. by rewrite Hrest.
    - destruct (LoopInv_types _ _ _ _ _ Hinv) as [[Ht _]|[Ht _]]; auto. }
  split; [exact Hloop|]. cbv zeta.
  destruct (strikeFound _) as [strike|] eqn:Hs.
  - destruct (processTradingDay_positions K dataService d strike Hs)
      as (_ & Hst & _ & _).
    cbv zeta in Hst. rewrite Hst, (static_type _ _ Hst).
    apply (Hloop strike (cePriceOf K dataService d strike)
             (pePriceOf K dataService d strike)).
  - by rewrite (processTradingDay_skipped K dataService d Hs).
Qed.

(** C4, as the code has it: [madeAdjustment] is true exactly when the
    adjustment slot was used: either the new CALL/PUT pair was opened (the
    day then has four positions), or the pair could not be opened because a
    leg had no tick at that timestamp and the skip warning was logged.  A
    re-entry therefore implies [madeAdjustment], not the other way round. *)
Theorem madeAdjustment_iff_slot_used :
  let day := (processTradingDay K dataService d).1 in
  let ws := (processTradingDay K dataService d).2 in
  (madeAdjustment day = true
   ↔ length (positions day) = 4 ∨ SkippingAdjustment d ∈ ws)
  ∧ (length (positions day) = 4 → madeAdjustment day = true).
Proof.
  cbv zeta.
  assert (Hiff : madeAdjustment (processTradingDay K dataService d).1 = true
                 ↔ length (positions (processTradingDay K dataService d).1) = 4
                   ∨ SkippingAdjustment d ∈ (processTradingDay K dataService d).2).
  { destruct (strikeFound (getATMStrike dataService d (ENTRY_TIME K)))
      as [strike|] eqn:Hs.
    - destruct (processTradingDay_positions K dataService d strike Hs)
        as (Hflag & Hst & _ & Hskip).
      cbv zeta in Hflag, Hst, Hskip. rewrite Hflag, Hskip.
      apply static_type in Hst.
      assert (Hlen : length (positions (processTradingDay K dataService d).1)
                     = length (type <$> positions
                                 (tradeDay (loopResult K dataService d strike))))
        by (by rewrite <- Hst, length_fmap).
      rewrite Hlen.
      destruct (LoopInv_types _ _ _ _ _ (loopResult_inv K dataService d strike))
        as [[Ht Hdone]|[Ht Hdone]]; rewrite Ht; simpl.
      + rewrite Hdone. split; [by right|]. by intros [?|?].
      + rewrite Hdone. split; [by left|done].
    - rewrite (processTradingDay_skipped K dataService d Hs). simpl.
      split; [done|]. by intros [?|?%not_elem_of_nil]. }
  split; [done|]. intros Hlen. apply Hiff. by left.
Qed.

(** C6, as the code has it.  A day without ticks gives an ordinary result
    with a total of zero, and what it holds depends on the strike.  When no
    ATM strike is available (the data service found no index tick, or the
    strike it gives is not a usable number) the trade day has no positions,
    no adjustment and no warning.  When a strike is available and neither leg
    has a tick, the trade day holds the two entry positions, as they were
    created, active and unresolved, and each leg's missing series is
    reported by a warning. *)
Theorem day_without_ticks_is_a_normal_result :
  (strikeFound (getATMStrike dataService d (ENTRY_TIME K)) = None →
   let r := processTradingDay K dataService d in
   positions r.1 = [] ∧ totalPnl r.1 = 0%float ∧ dayPnlPercent r.1 = 0%float
   ∧ madeAdjustment r.1 = false ∧ date r.1 = d ∧ r.2 = [])
  ∧ (∀ strike,
       strikeFound (getATMStrike dataService d (ENTRY_TIME K)) = Some strike →
       ceSeriesOf K dataService d strike = [] →
       peSeriesOf K dataService d strike = [] →
       let r := processTradingDay K dataService d in
       positions r.1
       = initialPositions K d strike (cePriceOf K dataService d strike)
           (pePriceOf K dataService d strike)
       ∧ totalPnl r.1 = 0%float ∧ madeAdjustment r.1 = false ∧ date r.1 = d
       ∧ r.2 = [NoTimeSeries CE d; NoTimeSeries PE d]).
Proof.
  split.
  - intros Hs. cbv zeta.
    by rewrite (processTradingDay_skipped K dataService d Hs).
  - intros strike Hs Hce Hpe. cbv zeta.
    rewrite (processTradingDay_found K dataService d strike Hs).
    unfold loopResult. rewrite Hce, Hpe. done.
Qed.

End Claims.

Section Resolution.
Context (K : Constants) (dataService : DataService) (d : string).

(** C8: after the simulation of a day, every position whose leg has a
    non-empty tick series is inactive with an exit price and an exit reason;
    a position the event loop left active is force-closed at the price and
    timestamp of the last element of its leg's series, with reason [EOD], and
    only such positions carry that reason; a position whose leg has no tick
    at all is left active and unresolved, and the missing series is reported
    by a warning. *)
Theorem positions_resolved_after_day strike :
  strikeFound (getATMStrike dataService d (ENTRY_TIME K)) = Some strike →
  let day := (processTradingDay K dataService d).1 in
  let ws := (processTradingDay K dataService d).2 in
  (∀ p, p ∈ positions day →
     (legSeries K dataService d strike p ≠ [] →
      isActive p = false ∧ is_Some (exitReason p) ∧ is_Some (exitPrice p))
     ∧ (exitReason p = Some EOD →
        ∃ final, last (legSeries K dataService d strike p) = Some final
                 ∧ exitPrice p = Some (ltp final)
                 ∧ exitTime p = Some (received_at final))
     ∧ (legSeries K dataService d strike p = [] →
        isActive p = true ∧ exitReason p = None ∧ exitPrice p = None
        ∧ NoTimeSeries (type p) d ∈ ws))
  ∧ (∀ i p final,
       positions (tradeDay (loopResult K dataService d strike)) !! i = Some p →
       isActive p = true →
       last (legSeries K dataService d strike p) = Some final →
       positions day !! i
       = Some (withPnl (lotSize K)
                 (exitPosition (ltp final) (received_at final) EOD p))).
Proof.
  intros Hs. cbv zeta. split.
  - destruct (processTradingDay_positions K dataService d strike Hs)
      as (_ & _ & Hset & _).
    cbv zeta in Hset. rewrite Forall_forall in Hset.
    intros p Hp. specialize (Hset p Hp). unfold legSeries.
    destruct Hset as [((Hact & Hpr & _ & Hre) & Hnil & Hw)
                     |[(Hact & Hpr & (r & Hre & Hr) & Hne)
                      |(Hact & Hre & final & Hlast & Hpr & Htm)]].
    + split; [done|]. split; [by rewrite Hre|]. done.
    + split; [by rewrite Hre; eauto|]. split; [|done].
      rewrite Hre. by intros [= ->].
    + assert (seriesOf (ceSeriesOf K dataService d strike)
                (peSeriesOf K dataService d strike) (type p) ≠ [])
        by (intros E; by rewrite E in Hlast).
      split; [by rewrite Hre, Hpr; eauto|]. split; [eauto|done].
  - intros i p final Hi Hact Hlast.
    rewrite (processTradingDay_found K dataService d strike Hs). simpl.
    rewrite exitRemaining_positions, !list_lookup_fmap, Hi. simpl.
    do 2 f_equal.
    destruct (exitAtEOD_cases d (ceSeriesOf K dataService d strike)
                (peSeriesOf K dataService d strike) p)
      as [(Hf & _)|[(_ & Hnil & _)|(_ & final' & Hlast' & ->)]].
    + congruence.
    + unfold legSeries in Hlast. by rewrite Hnil in Hlast.
    + unfold legSeries in Hlast. rewrite Hlast in Hlast'. by simplify_eq.
Qed.

(** C9: the day's total is the sum, over the positions with a resolved exit
    price, of [(exitPrice - entryPrice) * lotSize], which is also what each
    such position's [pnl] holds; and the day's percentage is that total over
    [(ceEntryPrice + peEntryPrice) * lotSize], times 100, where the two prices
    are the entry prices of the original pair, the first two positions of the
    day, whether or not an adjustment pair follows them. *)
Theorem day_pnl_is_sum_over_resolved strike :
  strikeFound (getATMStrike dataService d (ENTRY_TIME K)) = Some strike →
  let day := (processTradingDay K dataService d).1 in
  totalPnl day = sumOfPositionPnl (lotSize K) (positions day)
  ∧ (∀ p, p ∈ positions day → is_Some (exitPrice p) →
          pnl p = positionPnl (lotSize K) p)
  ∧ ∃ p0 p1 rest,
      positions day = p0 :: p1 :: rest
      ∧ type p0 = CE ∧ type p1 = PE
      ∧ entryPrice p0 = cePriceOf K dataService d strike
      ∧ entryPrice p1 = pePriceOf K dataService d strike
      ∧ dayPnlPercent day
        = (totalPnl day / ((entryPrice p0 + entryPrice p1) * lotSize K)
           * 100)%float.
Proof.
  intros Hs. cbv zeta.
  destruct (processTradingDay_positions K dataService d strike Hs)
    as (_ & Hst & _ & _). cbv zeta in Hst.
  destruct (LoopInv_prefix _ _ _ _ _ (loopResult_inv K dataService d strike))
    as [rest Hrest].
  rewrite Hrest in Hst. clear Hrest.
  rewrite (processTradingDay_found K dataService d strike Hs) in *.
  simpl in *. split; [by rewrite sumOfPositionPnl_withPnl|]. split.
  - intros p (q & -> & _)%list_elem_of_fmap. unfold withPnl, positionPnl.
    destruct (exitPrice q) eqn:E; simpl; [by rewrite E|].
    rewrite E. by intros [? ?].
  - apply fmap_cons_inv in Hst as (p0 & l0 & H0 & Hst & Hl).
    symmetry in Hst. apply fmap_cons_inv in Hst as (p1 & l1 & H1 & _ & ->).
    exists p0, p1, l1. rewrite Hl.
    injection H0 as ? ? ? ?. injection H1 as ? ? ? ?.
    repeat split; try done. congruence.
Qed.

End Resolution.

(** ** Numbers: dividing by a zero entry price *)

Section Numbers.

Lemma SF_hundred : ∃ m e, Prim2SF 100 = S754_finite false m e.
Proof. eexists _, _. reflexivity. Qed.

(** The change computed against a zero entry is never a finite number: it is
    [NaN] when the current value is zero or [NaN], and an infinity of the sign
    of the current value otherwise. *)
Lemma percentChange_zero_SF x :
  Prim2SF (percentChange x 0)
  = match Prim2SF x with
    | S754_zero _ | S754_nan => S754_nan
    | S754_infinity s | S754_finite s _ _ => S754_infinity s
    end.
Proof.
  unfold percentChange.
  rewrite FloatAxioms.mul_spec, FloatAxioms.div_spec, FloatAxioms.sub_spec.
  destruct SF_hundred as (m & e & ->).
  change (Prim2SF 0) with (S754_zero false).
  destruct (Prim2SF x) as [[|]|[|]| |[|] mx ex]; reflexivity.
Qed.

Lemma is_finite_SF x :
  is_finite x = true →
  (∃ s, Prim2SF x = S754_zero s) ∨ (∃ s m e, Prim2SF x = S754_finite s m e).
Proof.
  unfold is_finite, is_nan, is_infinity.
  rewrite !FloatAxioms.eqb_spec, FloatAxioms.abs_spec.
  change (Prim2SF infinity) with (S754_infinity false).
  destruct (Prim2SF x) as [s|[|]| |s m e]; cbn; intros H;
    first [discriminate | by left; eauto | by right; eauto].
Qed.

Lemma geq_SF a b : geq a b = SFleb (Prim2SF b) (Prim2SF a).
Proof. unfold geq. apply FloatAxioms.leb_spec. Qed.

Lemma leq_SF a b : leq a b = SFleb (Prim2SF a) (Prim2SF b).
Proof. unfold leq. apply FloatAxioms.leb_spec. Qed.

(** With a zero entry price and a current price that is not negative, a
    stop-loss comparison [change <= -threshold] is false. *)
Lemma zero_entry_no_stop current threshold :
  is_finite threshold = true →
  (current <? 0)%float = false →
  leq (percentChange current 0) (- threshold)%float = false.
Proof.
  intros Hf Hc. rewrite leq_SF, FloatAxioms.opp_spec, percentChange_zero_SF.
  rewrite FloatAxioms.ltb_spec in Hc.
  change (Prim2SF 0) with (S754_zero false) in Hc.
  apply is_finite_SF in Hf as [[s ->]|(s & m & e & ->)];
    destruct (Prim2SF current) as [[|]|[|]| |[|] mx ex]; done.
Qed.

(** With a zero entry total, a target comparison [change >= threshold] is
    true exactly when the current total is positive. *)
Lemma zero_entry_target current threshold :
  is_finite threshold = true →
  (current <? 0)%float = false →
  geq (percentChange current 0) threshold = (0 <? current)%float.
Proof.
  intros Hf Hc. rewrite geq_SF, percentChange_zero_SF.
  rewrite FloatAxioms.ltb_spec in *.
  change (Prim2SF 0) with (S754_zero false) in *.
  apply is_finite_SF in Hf as [[s ->]|(s & m & e & ->)];
    destruct (Prim2SF current) as [[|]|[|]| |[|] mx ex]; done.
Qed.

End Numbers.

(** C3, as the code has it.  No division is guarded: with a zero entry
    price the percentage is an infinity or [NaN].  For finite thresholds and
    prices that are not negative, the individual stop loss of a leg whose
    entry price is zero does not fire, and with a zero combined entry total
    the combined stop loss does not fire either; the combined target,
    however, fires whenever the current total is positive, and closes the
    legs that have a tick with reason [TOTAL_PL_TARGET]. *)
Theorem zero_entry_price_checks (K : Constants) :
  is_finite (SL_PERCENT K) = true →
  is_finite (PNL_TARGET_PERCENT K) = true →
  is_finite (PNL_SL_PERCENT K) = true →
  (∀ (ps : list Position) i p data time,
     ps !! i = Some p →
     entryPrice p = 0%float →
     (ltp data <? 0)%float = false →
     individualSL K (Some i) (Some data) time ps = ps)
  ∧ (∀ (ps : list Position) ce pe ceData peData time,
       (entryOrZero ps ce + entryOrZero ps pe)%float = 0%float →
       ((ltpOrZero ceData + ltpOrZero peData) <? 0)%float = false →
       combinedChecks K ce pe ceData peData time ps
       = if (0 <? ltpOrZero ceData + ltpOrZero peData)%float
         then exitLeg pe peData time TOTAL_PL_TARGET
                (exitLeg ce ceData time TOTAL_PL_TARGET ps)
         else ps).
Proof.
  intros Hsl Htarget Hcsl. split.
  - intros ps i p data time Hp Hzero Hltp. unfold individualSL.
    rewrite Hp, Hzero. by rewrite zero_entry_no_stop.
  - intros ps ce pe ceData peData time Hzero Hcur. unfold combinedChecks.
    unfold totalChange. rewrite Hzero.
    rewrite zero_entry_target, zero_entry_no_stop by done.
    by destruct (0 <? _)%float.
Qed.

(** ** The code at concrete days *)

(** The individual stop-loss block closes the position its reference points
    at whenever the leg's own change is at or below the threshold, whether or
    not that position is still active: the reason it leaves is [SL]. *)
Lemma individualSL_overwrites K (ps : list Position) i p data time :
  ps !! i = Some p →
  leq (percentChange (ltp data) (entryPrice p)) (- SL_PERCENT K)%float = true →
  individualSL K (Some i) (Some data) time ps !! i
  = Some (exitPosition (ltp data) time SL p).
Proof.
  intros Hp Hc. unfold individualSL. rewrite Hp, Hc.
  rewrite lookup_exitAt, Hp. by rewrite decide_True.
Qed.

(** C1 on the code.  Entry 100/100, both legs at 70 at [t1]: the combined
    change is -30 %, so the combined stop loss fires ([exitBoth] is set) and
    closes both legs with [TOTAL_PL_SL]; each leg's own change is -30 % as
    well, and the individual stop-loss blocks, which do not look at
    [isActive], close the two legs a second time.  The reason recorded for the
    day is [SL], not the combined reason. *)
Theorem combined_exit_reason_overwritten :
  let ps := initialPositions defaults sampleDate 50000 100 100 in
  let ce := findActive CE ps in
  let pe := findActive PE ps in
  let ceData := findTick [tick t1 70] t1 in
  let peData := findTick [tick t1 70] t1 in
  (ce = Some 0 ∧ pe = Some 1)
  ∧ totalChange ps ce pe ceData peData = (-30)%float
  ∧ exitBoth defaults (totalChange ps ce pe ceData peData) = true
  ∧ exitReason <$> combinedChecks defaults ce pe ceData peData t1 ps
    = [Some TOTAL_PL_SL; Some TOTAL_PL_SL]
  ∧ exitReason <$> applyExits defaults ce pe ceData peData t1 ps
    = [Some SL; Some SL]
  ∧ exitReason <$> take 2 (positions (processTradingDay defaults bothDrop
                                        sampleDate).1)
    = [Some SL; Some SL].
Proof. vm_compute. done. Qed.

(** C2 on the code.  Entry 100/100; both legs fall to 60 at [t1], which
    closes the entry pair and opens the adjustment pair at 60/60; at [t2]
    both trade at 40 and the same stop-loss rules close the adjustment pair,
    with reason [SL] and exit time [t2], although the last tick of the day is
    at [t3]. *)
Theorem adjustment_pair_is_stopped_out :
  let day := (processTradingDay defaults dropTwice sampleDate).1 in
  madeAdjustment day = true
  ∧ (λ p, (type p, entryTime p, entryPrice p)) <$> drop 2 (positions day)
    = [(CE, t1, 60%float); (PE, t1, 60%float)]
  ∧ (λ p, (isActive p, exitReason p, exitTime p, exitPrice p))
      <$> drop 2 (positions day)
    = [(false, Some SL, Some t2, Some 40%float);
       (false, Some SL, Some t2, Some 40%float)]
  ∧ received_at <$> last (ceSeriesOf defaults dropTwice sampleDate 50000)
    = Some t3.
Proof. vm_compute. done. Qed.

(** C3 fails as stated: with both entry prices zero the combined entry total
    is zero, the combined change at a tick of 5/5 is [+infinity], and the
    combined target check closes both legs. *)
Lemma zero_entry_fires_target :
  let ps := initialPositions defaults sampleDate 50000 0 0 in
  let ceData := Some (tick t1 5) in
  let peData := Some (tick t1 5) in
  (entryOrZero ps (Some 0%nat) + entryOrZero ps (Some 1%nat))%float = 0%float
  ∧ totalChange ps (Some 0) (Some 1) ceData peData = infinity
  ∧ (λ p, (isActive p, exitReason p))
      <$> combinedChecks defaults (Some 0) (Some 1) ceData peData t1 ps
    = [(false, Some TOTAL_PL_TARGET); (false, Some TOTAL_PL_TARGET)]
  ∧ (λ p, (isActive p, exitReason p, exitTime p))
      <$> take 2 (positions (processTradingDay defaults zeroEntry sampleDate).1)
    = [(false, Some TOTAL_PL_TARGET, Some t1);
       (false, Some TOTAL_PL_TARGET, Some t1)].
Proof. vm_compute. done. Qed.

(** The two checks at the defaults, on the entry pair 0/0 and ticks 5/5. *)
Lemma zero_entry_price_checks_witness :
  let ps := initialPositions defaults sampleDate 50000 0 0 in
  individualSL defaults (Some 0) (Some (tick t1 5)) t1 ps = ps
  ∧ combinedChecks defaults (Some 0) (Some 1)
      (Some (tick t1 5)) (Some (tick t1 5)) t1 ps
    = exitLeg (Some 1) (Some (tick t1 5)) t1 TOTAL_PL_TARGET
        (exitLeg (Some 0) (Some (tick t1 5)) t1 TOTAL_PL_TARGET ps).
Proof.
  destruct (zero_entry_price_checks defaults eq_refl eq_refl eq_refl)
    as [Hind Hcomb].
  split.
  - apply (Hind _ 0 (newPosition CE 0 (sampleClock sampleDate "09:25") 50000));
      reflexivity.
  - apply (Hcomb (initialPositions defaults sampleDate 50000 0 0)
             (Some 0) (Some 1) (Some (tick t1 5)) (Some (tick t1 5)) t1);
      reflexivity.
Defined.

(** C4 fails as stated: the call ticks only at [t1] and the put only at
    [t2]; both entry legs are stopped out before the cutoff, the adjustment
    is skipped for want of a call tick at [t2], and the day still says
    [madeAdjustment] although it holds the entry pair alone. *)
Lemma madeAdjustment_without_reentry :
  let r := processTradingDay defaults misaligned sampleDate in
  madeAdjustment r.1 = true
  ∧ type <$> positions r.1 = [CE; PE]
  ∧ r.2 = [SkippingAdjustment sampleDate].
Proof. vm_compute. done. Qed.

(** The sample day without an index tick, and the one with a strike and no
    option tick. *)
Lemma day_without_ticks_is_a_normal_result_witness :
  (let r := processTradingDay defaults noStrike sampleDate in
   positions r.1 = [] ∧ totalPnl r.1 = 0%float ∧ dayPnlPercent r.1 = 0%float
   ∧ madeAdjustment r.1 = false ∧ date r.1 = sampleDate ∧ r.2 = [])
  ∧ (let r := processTradingDay defaults noTicks sampleDate in
     positions r.1
     = initialPositions defaults sampleDate 50000
         (cePriceOf defaults noTicks sampleDate 50000)
         (pePriceOf defaults noTicks sampleDate 50000)
     ∧ totalPnl r.1 = 0%float ∧ madeAdjustment r.1 = false
     ∧ date r.1 = sampleDate
     ∧ r.2 = [NoTimeSeries CE sampleDate; NoTimeSeries PE sampleDate]).
Proof.
  split.
  - apply (proj1 (day_without_ticks_is_a_normal_result defaults noStrike
                    sampleDate)).
    reflexivity.
  - apply (proj2 (day_without_ticks_is_a_normal_result defaults noTicks
                    sampleDate) 50000%float); reflexivity.
Defined.

(** C6 fails as stated: this day has no option tick at all, in either
    series, and the trade day it gives is not empty: it holds the two entry
    positions, open and unresolved, with a total of zero and one warning per
    leg. *)
Example no_ticks_with_strike :
  let r := processTradingDay defaults noTicks sampleDate in
  ceSeriesOf defaults noTicks sampleDate 50000 = []
  ∧ peSeriesOf defaults noTicks sampleDate 50000 = []
  ∧ positions r.1 ≠ []
  ∧ (λ p, (type p, isActive p, exitReason p)) <$> positions r.1
    = [(CE, true, None); (PE, true, None)]
  ∧ totalPnl r.1 = 0%float
  ∧ r.2 = [NoTimeSeries CE sampleDate; NoTimeSeries PE sampleDate].
Proof. vm_compute. repeat split; done. Qed.

(** The call leg of the sample day with misaligned ticks. *)
Lemma positions_resolved_after_day_witness :
  strikeFound (getATMStrike misaligned sampleDate (ENTRY_TIME defaults))
  = Some 50000%float
  ∧ ∃ p, positions (processTradingDay defaults misaligned sampleDate).1 !! 0
         = Some p
         ∧ isActive p = false ∧ is_Some (exitReason p)
         ∧ is_Some (exitPrice p).
Proof.
  split; [reflexivity|].
  eexists. split; [vm_compute; reflexivity|].
  apply (proj1 (positions_resolved_after_day defaults misaligned sampleDate
                  50000 eq_refl)).
  - vm_compute. apply list_elem_of_here.
  - discriminate.
Defined.

(** The total of the sample day with an adjustment. *)
Lemma day_pnl_is_sum_over_resolved_witness :
  let day := (processTradingDay defaults dropTwice sampleDate).1 in
  totalPnl day = sumOfPositionPnl (lotSize defaults) (positions day).
Proof.
  apply (day_pnl_is_sum_over_resolved defaults dropTwice sampleDate 50000).
  reflexivity.
Defined.

(** On that day the adjustment pair is fully closed before the cutoff, and
    the day still ends with four positions. *)
Example no_third_pair :
  let day := (processTradingDay defaults dropTwice sampleDate).1 in
  isActive <$> positions day = [false; false; false; false]
  ∧ exitTime <$> positions day = [Some t1; Some t1; Some t2; Some t2]
  ∧ bool_decide (t2 < createDateTime defaults sampleDate
                        (ADJUSTMENT_TIME defaults))%Z = true.
Proof. vm_compute. done. Qed.

(** The day of [dropTwice] in numbers: two legs lose 40 each and the
    adjustment legs 20 each, at a lot size of 30. *)
Example dropTwice_total :
  let day := (processTradingDay defaults dropTwice sampleDate).1 in
  totalPnl day = (-3600)%float ∧ dayPnlPercent day = (-60)%float
  ∧ pnl <$> positions day
    = [Some (-1200)%float; Some (-1200)%float;
       Some (-600)%float; Some (-600)%float].
Proof. vm_compute. done. Qed.

(** * Further properties of the simulator *)

(** ** One event, position by position *)

Section EventStep.
Context (K : Constants).
Context (ce pe : option nat) (ceData peData : option OptionData) (time : Z).

Lemma refRel_refl ps : refRel ce pe ceData peData time ps ps.
Proof. split; [done|]. intros j p Hp. exists p. split; [done|by left]. Qed.

Lemma refRel_trans ps1 ps2 ps3 :
  refRel ce pe ceData peData time ps1 ps2 →
  refRel ce pe ceData peData time ps2 ps3 →
  refRel ce pe ceData peData time ps1 ps3.
Proof.
  intros [Hl1 H1] [Hl2 H2]. split; [congruence|].
  intros j p Hp.
  destruct (H1 j p Hp) as (p' & Hp' & Hs1).
  destruct (H2 j p' Hp') as (p'' & Hp'' & Hs2).
  exists p''. split; [done|].
  destruct Hs2 as [->|(tk & r & Hr & -> & Hleg)]; [done|].
  right. exists tk, r. split; [done|]. split; [|done].
  destruct Hs1 as [->|(tk' & r' & _ & -> & _)]; [done|].
  apply exitPosition_twice.
Qed.

Lemma exitAt_refRel i tk r ps :
  r ≠ EOD →
  (ce = Some i ∧ ceData = Some tk) ∨ (pe = Some i ∧ peData = Some tk) →
  refRel ce pe ceData peData time ps (exitAt i (ltp tk) time r ps).
Proof.
  intros Hr Hleg. split; [apply length_alter|].
  intros j p Hp. rewrite lookup_exitAt, Hp. simpl.
  destruct (decide (i = j)) as [->|Hne].
  - eexists. split; [done|]. right. eauto.
  - eexists. split; [done|]. by left.
Qed.

Lemma exitLeg_refRel leg data r ps :
  r ≠ EOD →
  (leg = ce ∧ data = ceData) ∨ (leg = pe ∧ data = peData) →
  refRel ce pe ceData peData time ps (exitLeg leg data time r ps).
Proof.
  intros Hr Hleg. unfold exitLeg.
  destruct leg as [i|], data as [tk|]; try apply refRel_refl.
  apply exitAt_refRel; [done|].
  destruct Hleg as [[<- <-]|[<- <-]]; auto.
Qed.

Lemma individualSL_refRel leg data ps :
  (leg = ce ∧ data = ceData) ∨ (leg = pe ∧ data = peData) →
  refRel ce pe ceData peData time ps (individualSL K leg data time ps).
Proof.
  intros Hleg. unfold individualSL.
  destruct leg as [i|], data as [tk|]; try apply refRel_refl.
  destruct (ps !! i); [|apply refRel_refl].
  case_match; [|apply refRel_refl].
  apply exitAt_refRel; [done|].
  destruct Hleg as [[<- <-]|[<- <-]]; auto.
Qed.

Lemma combinedChecks_refRel ps :
  refRel ce pe ceData peData time ps
    (combinedChecks K ce pe ceData peData time ps).
Proof.
  unfold combinedChecks. repeat case_match; try apply refRel_refl.
  - eapply refRel_trans; apply exitLeg_refRel; auto.
  - eapply refRel_trans; apply exitLeg_refRel; auto.
Qed.

Lemma applyExits_refRel ps :
  refRel ce pe ceData peData time ps
    (applyExits K ce pe ceData peData time ps).
Proof.
  unfold applyExits.
  eapply refRel_trans; [|apply individualSL_refRel; auto].
  eapply refRel_trans; [|apply individualSL_refRel; auto].
  apply combinedChecks_refRel.
Qed.

End EventStep.

Section EventOutcome.
Context (K : Constants) (d : string).
Context (ceTimeSeries peTimeSeries : list OptionData).

Lemma eventStep_refl time (ps : list Position) :
  Forall2 (eventStep ceTimeSeries peTimeSeries time) ps ps.
Proof. apply Forall_Forall2_diag, Forall_forall. intros p _. by left. Qed.

(** The exits of an iteration, with the references the iteration takes. *)
Lemma applyExits_eventStep time (ps : list Position) :
  Forall2 (eventStep ceTimeSeries peTimeSeries time) ps
    (applyExits K (findActive CE ps) (findActive PE ps)
       (findTick ceTimeSeries time) (findTick peTimeSeries time) time ps).
Proof.
  destruct (applyExits_refRel K (findActive CE ps) (findActive PE ps)
              (findTick ceTimeSeries time) (findTick peTimeSeries time)
              time ps) as [Hlen Hstep].
  apply Forall2_same_length_lookup. split; [done|].
  intros j p p' Hp Hp'.
  destruct (Hstep j p Hp) as (q & Hq & Hs). simplify_eq.
  destruct Hs as [->|(tk & r & Hr & -> & Hleg)]; [by left|].
  right.
  destruct Hleg as [[Hf Hd]|[Hf Hd]];
    apply findActive_Some in Hf as (p0 & Hp0 & Ht & Ha); simplify_eq;
    (split; [done|]); exists tk, r; rewrite Ht; done.
Qed.

Lemma adjustment_cases ceData peData time st :
  adjustment K d ceData peData time st = st
  ∨ (adjustmentDone st = false
     ∧ (time < createDateTime K d (ADJUSTMENT_TIME K))%Z
     ∧ allExited (positions (tradeDay st)) = true
     ∧ ((ceData = None ∨ peData = None)
        ∧ adjustment K d ceData peData time st
          = {| tradeDay := set_madeAdjustment true (tradeDay st);
               adjustmentDone := true;
               warnings := warnings st ++ [SkippingAdjustment d] |}
        ∨ ∃ c p,
            ceData = Some c ∧ peData = Some p
            ∧ adjustment K d ceData peData time st
              = {| tradeDay :=
                     set_positions
                       (positions (tradeDay st)
                        ++ [ newPosition CE (ltp c) time (atmStrike (tradeDay st));
                             newPosition PE (ltp p) time (atmStrike (tradeDay st)) ])
                       (set_madeAdjustment true (tradeDay st));
                   adjustmentDone := true;
                   warnings := warnings st |})).
Proof.
  unfold adjustment.
  destruct (adjustmentDone st); simpl; [by left|].
  case_bool_decide; [|by left].
  destruct (allExited _); [|by left].
  right. split; [done|]. split; [done|]. split; [done|].
  destruct ceData as [c|], peData as [p|]; eauto 10.
Qed.

Lemma processEvent_outcome time st :
  eventOutcome K d ceTimeSeries peTimeSeries time st
    (processEvent K d ceTimeSeries peTimeSeries time st).2.
Proof.
  destruct (processEvent_cases K d ceTimeSeries peTimeSeries time st)
    as [(_ & _ & ->)|(Hact & ->)]; simpl.
  { repeat split; try done.
    exists (positions (tradeDay st)), []. rewrite app_nil_r.
    split; [done|]. split; [apply eventStep_refl|]. split; by left. }
  assert (Hq : ∃ q, q ∈ positions (tradeDay st) ∧ isActive q = true).
  { destruct (findActive CE (positions (tradeDay st))) as [i|] eqn:Hce.
    - apply findActive_Some in Hce as (q & Hq & _ & Ha).
      exists q. split; [by eapply list_elem_of_lookup_2|done].
    - destruct (findActive PE (positions (tradeDay st))) as [i|] eqn:Hpe;
        [|by destruct Hact].
      apply findActive_Some in Hpe as (q & Hq & _ & Ha).
      exists q. split; [by eapply list_elem_of_lookup_2|done]. }
  pose proof (applyExits_eventStep time (positions (tradeDay st))) as Hstep.
  set (ps' := applyExits K _ _ _ _ time _) in *.
  destruct (adjustment_cases (findTick ceTimeSeries time)
              (findTick peTimeSeries time) time
              {| tradeDay := set_positions ps' (tradeDay st);
                 adjustmentDone := adjustmentDone st;
                 warnings := warnings st |})
    as [->|(Hdone & Hcut & Hall & [[_ ->]|(c & p & Hc & Hp & ->)])];
    simpl in *.
  - repeat split; try done. exists ps', []. rewrite app_nil_r.
    split; [done|]. split; [done|]. split; by left.
  - repeat split; try done. exists ps', []. rewrite app_nil_r.
    split; [done|]. split; [done|]. split; [|by left].
    right. by rewrite Hdone.
  - repeat split; try done. eexists ps', _. split; [done|].
    split; [done|]. split; right; rewrite Hdone; eauto 10.
Qed.

End EventOutcome.

(** ** The richer invariant *)

Section DayInvariant.
Context (K : Constants) (d : string).
Context (ceTimeSeries peTimeSeries : list OptionData).
Context (strike cePrice pePrice : float).

Lemma eventStep_static time p p' :
  eventStep ceTimeSeries peTimeSeries time p p' → static p' = static p.
Proof. intros [->|(_ & tk & r & _ & _ & ->)]; done. Qed.

(** A position that is closed is not touched by any later event. *)
Lemma eventStep_closed time p p' :
  eventStep ceTimeSeries peTimeSeries time p p' →
  isActive p = false → p' = p.
Proof. intros [->|(Ha & _)] Hf; [done|congruence]. Qed.

Lemma eventStep_exitTime time p p' :
  eventStep ceTimeSeries peTimeSeries time p p' →
  isActive p = true → isActive p' = false → exitTime p' = Some time.
Proof.
  intros [->|(_ & tk & r & _ & _ & ->)] Ha Hf; [congruence|done].
Qed.

Lemma eventStep_wellFormed time p p' :
  eventStep ceTimeSeries peTimeSeries time p p' →
  wellFormed ceTimeSeries peTimeSeries strike p →
  wellFormed ceTimeSeries peTimeSeries strike p'.
Proof.
  intros [->|(_ & tk & r & Htk & Hr & ->)] (Hs & Hp & Hst); [done|].
  split; [done|]. split; [done|]. right. split; [done|]. split; [|eauto].
  apply findTick_Some in Htk as [Hin <-]. by exists tk.
Qed.

Lemma wellFormed_series p :
  wellFormed ceTimeSeries peTimeSeries strike p →
  isActive p = false →
  seriesOf ceTimeSeries peTimeSeries (type p) ≠ [].
Proof.
  intros (_ & _ & [[Ha _]|(_ & (tk & Hin & _) & _)]) Hf; [congruence|].
  intros E. rewrite E in Hin. by apply not_elem_of_nil in Hin.
Qed.

Lemma allExited_Forall (ps : list Position) :
  allExited ps = true ↔ Forall (λ p, isActive p = false) ps.
Proof.
  unfold allExited. rewrite forallb_forall, Forall_forall.
  split; intros H p Hp.
  - apply list_elem_of_In, H in Hp. by destruct (isActive p).
  - apply list_elem_of_In, H in Hp. by rewrite Hp.
Qed.

Lemma eventOutcome_inv time st st' :
  eventOutcome K d ceTimeSeries peTimeSeries time st st' →
  DayInv K d ceTimeSeries peTimeSeries strike cePrice pePrice st →
  DayInv K d ceTimeSeries peTimeSeries strike cePrice pePrice st'.
Proof.
  intros (Hdate & Hstrike & Hmono & ps' & pair & Hps & Hstep & Hdone & Hpair)
         [Id Is Iwf Ish Itk].
  assert (Hwf' : Forall (wellFormed ceTimeSeries peTimeSeries strike) ps').
  { apply Forall_lookup. intros j p' Hp'.
    destruct (Forall2_lookup_r _ _ _ _ _ Hstep Hp') as (p & Hp & Hs).
    eapply eventStep_wellFormed; [done|].
    by eapply (Forall_lookup_1 _ _ _ _ Iwf). }
  assert (Hticks : adjustmentDone st' = true →
                   ceTimeSeries ≠ [] ∧ peTimeSeries ≠ []).
  { destruct Hdone as [->|(Hf & _ & _ & Hall & _)]; [done|]. intros _.
    apply allExited_Forall in Hall.
    destruct Ish as [p0 p1 Hl H0 H1|? ? ? ? ? ? ? _ _ _ _ _ _ _ _ _ _ _ Hd];
      [|congruence].
    rewrite Hl in Hstep.
    apply Forall2_cons_inv_l in Hstep as (q0 & l0 & Hs0 & Hstep & ->).
    apply Forall2_cons_inv_l in Hstep as (q1 & l1 & Hs1 & Hstep & ->).
    apply Forall2_nil_inv_l in Hstep as ->.
    apply Forall_cons in Hall as [Hq0 Hall].
    apply Forall_cons in Hall as [Hq1 _].
    apply Forall_cons in Hwf' as [Hw0 Hwf'].
    apply Forall_cons in Hwf' as [Hw1 _].
    pose proof (wellFormed_series q0 Hw0 Hq0) as Hn0.
    pose proof (wellFormed_series q1 Hw1 Hq1) as Hn1.
    apply eventStep_static in Hs0, Hs1.
    rewrite H0 in Hs0. rewrite H1 in Hs1.
    injection Hs0 as E0 _ _ _. injection Hs1 as E1 _ _ _.
    rewrite E0 in Hn0. rewrite E1 in Hn1. done. }
  constructor; try congruence.
  - rewrite Hps. apply Forall_app. split; [done|].
    destruct Hpair as [->|(_ & _ & c & p & _ & _ & ->)]; [constructor|].
    rewrite Is.
    constructor; [by split; [|split; [|left]]|].
    constructor; [by split; [|split; [|left]]|]. constructor.
  - destruct Ish as [p0 p1 Hl H0 H1
                    |p0 p1 p2 p3 c p t Hl H0 H1 Ha0 Ha1 Hex Hc Hp Ht H2 H3 Hd].
    + rewrite Hl in Hstep.
      apply Forall2_cons_inv_l in Hstep as (q0 & l0 & Hs0 & Hstep & ->).
      apply Forall2_cons_inv_l in Hstep as (q1 & l1 & Hs1 & Hstep & ->).
      apply Forall2_nil_inv_l in Hstep as ->.
      pose proof (eventStep_static _ _ _ Hs0) as E0.
      pose proof (eventStep_static _ _ _ Hs1) as E1.
      destruct Hpair as [->|(Hf & Ht' & c & p & Hc & Hp & ->)].
      * eapply EntryPairOnly; [by rewrite Hps, app_nil_r|congruence..].
      * destruct Hdone as [E|(_ & _ & Hcut & Hall & q & Hq & Hqa)];
          [congruence|].
        apply allExited_Forall in Hall.
        apply Forall_cons in Hall as [Hq0 Hall].
        apply Forall_cons in Hall as [Hq1 _].
        rewrite Is in Hps.
        eapply (WithAdjustment _ _ _ _ _ _ _ _ q0 q1 _ _ c p time);
          [by rewrite Hps|congruence|congruence|done|done| |done..].
        rewrite Hl in Hq.
        apply elem_of_cons in Hq as [->|Hq].
        { left. by eapply eventStep_exitTime. }
        apply list_elem_of_singleton in Hq as ->.
        right. by eapply eventStep_exitTime.
    + specialize (Hmono Hd).
      destruct Hpair as [->|(Hf & _)]; [|congruence].
      rewrite Hl in Hstep.
      apply Forall2_cons_inv_l in Hstep as (q0 & l0 & Hs0 & Hstep & ->).
      apply Forall2_cons_inv_l in Hstep as (q1 & l1 & Hs1 & Hstep & ->).
      apply Forall2_cons_inv_l in Hstep as (q2 & l2 & Hs2 & Hstep & ->).
      apply Forall2_cons_inv_l in Hstep as (q3 & l3 & Hs3 & Hstep & ->).
      apply Forall2_nil_inv_l in Hstep as ->.
      apply eventStep_closed in Hs0, Hs1; [|done..]. subst q0 q1.
      apply eventStep_static in Hs2, Hs3.
      eapply (WithAdjustment _ _ _ _ _ _ _ _ p0 p1 q2 q3 c p t);
        [by rewrite Hps, app_nil_r|done..|congruence|congruence|done].
  - exact Hticks.
Qed.

Lemma processEvent_dayInv time st :
  DayInv K d ceTimeSeries peTimeSeries strike cePrice pePrice st →
  DayInv K d ceTimeSeries peTimeSeries strike cePrice pePrice
    (processEvent K d ceTimeSeries peTimeSeries time st).2.
Proof.
  intros Hinv. eapply eventOutcome_inv; [apply processEvent_outcome|done].
Qed.

Lemma startState_dayInv :
  DayInv K d ceTimeSeries peTimeSeries strike cePrice pePrice
    (startState K d strike cePrice pePrice).
Proof.
  constructor; simpl; try done.
  - constructor; [by split; [|split; [|left]]|].
    constructor; [by split; [|split; [|left]]|]. constructor.
  - by eapply EntryPairOnly.
Qed.

Lemma eventLoop_dayInv times :
  DayInv K d ceTimeSeries peTimeSeries strike cePrice pePrice
    (eventLoop K d ceTimeSeries peTimeSeries times
       (startState K d strike cePrice pePrice)).
Proof.
  apply (eventLoop_preserves K d ceTimeSeries peTimeSeries
           (DayInv K d ceTimeSeries peTimeSeries strike cePrice pePrice)).
  - intros. by apply processEvent_dayInv.
  - apply startState_dayInv.
Qed.

End DayInvariant.

(** ** The day that comes out *)

Section FinalDay.
Context (K : Constants) (dataService : DataService) (d : string).
Context (strike : float).
Context (Hfound :
  strikeFound (getATMStrike dataService d (ENTRY_TIME K)) = Some strike).

Lemma loopResult_dayInv :
  DayInv K d (ceSeriesOf K dataService d strike)
    (peSeriesOf K dataService d strike) strike
    (cePriceOf K dataService d strike) (pePriceOf K dataService d strike)
    (loopResult K dataService d strike).
Proof. apply eventLoop_dayInv. Qed.

(** The positions of the day are those the loop ended with, each passed
    through the end-of-day step and given its [pnl]. *)
Lemma final_positions :
  positions (processTradingDay K dataService d).1
  = (λ p, withPnl (lotSize K)
            (exitAtEOD d (ceSeriesOf K dataService d strike)
               (peSeriesOf K dataService d strike) p).1)
    <$> positions (tradeDay (loopResult K dataService d strike)).
Proof.
  rewrite (processTradingDay_found K dataService d strike Hfound). simpl.
  by rewrite exitRemaining_positions, <- list_fmap_compose.
Qed.

Lemma final_position_record p :
  wellFormed (ceSeriesOf K dataService d strike)
    (peSeriesOf K dataService d strike) strike p →
  let q := withPnl (lotSize K)
             (exitAtEOD d (ceSeriesOf K dataService d strike)
                (peSeriesOf K dataService d strike) p).1 in
  static q = static p
  ∧ (isActive p = false →
     isActive q = false ∧ exitReason q = exitReason p
     ∧ exitTime q = exitTime p)
  ∧ ((isActive q = true ∧ exitPrice q = None ∧ exitTime q = None
      ∧ exitReason q = None ∧ pnl q = None
      ∧ legSeries K dataService d strike q = [])
     ∨ (isActive q = false
        ∧ ∃ tk r,
            tk ∈ legSeries K dataService d strike q
            ∧ exitPrice q = Some (ltp tk)
            ∧ exitTime q = Some (received_at tk)
            ∧ exitReason q = Some r
            ∧ pnl q = Some ((ltp tk - entryPrice q) * lotSize K)%float)).
Proof.
  intros (Hs & Hp & Hst). cbv zeta. unfold legSeries.
  destruct (exitAtEOD_cases d (ceSeriesOf K dataService d strike)
              (peSeriesOf K dataService d strike) p)
    as [(Ha & ->)|[(Ha & Hnil & ->)|(Ha & final & Hlast & ->)]]; simpl.
  - destruct Hst as [[Ha' _]|(_ & (tk & Hin & Hpr & Htm) & r & Hr & _)];
      [congruence|].
    unfold withPnl, positionPnl. rewrite Hpr. simpl.
    split; [done|]. split; [done|]. right. split; [done|].
    exists tk, r. by rewrite Hpr, Htm, Hr.
  - destruct Hst as [(_ & Hpr & Htm & Hr)|[Ha' _]]; [|congruence].
    unfold withPnl, positionPnl. rewrite Hpr. simpl.
    split; [done|]. split; [done|]. left. by rewrite Ha, Hpr, Htm, Hr, Hp.
  - unfold withPnl, positionPnl. simpl.
    split; [done|]. split; [congruence|]. right. split; [done|].
    exists final, EOD. split; [|done].
    apply last_Some in Hlast as [l' ->]. apply elem_of_app. right.
    by apply list_elem_of_singleton.
Qed.

End FinalDay.

Section DayProperties.
Context (K : Constants) (dataService : DataService) (d : string).

(** The exit fields of a position of the returned day go together.  An
    active position has no exit price, time or reason and no [pnl], and its
    leg has no tick at all.  An inactive position has all four, and its exit
    price and exit time are the price and the timestamp of one and the same
    tick of its own leg; its [pnl] is that price less the entry price, times
    the lot size. *)
Theorem position_records_are_consistent strike :
  strikeFound (getATMStrike dataService d (ENTRY_TIME K)) = Some strike →
  ∀ q, q ∈ positions (processTradingDay K dataService d).1 →
    (isActive q = true ∧ exitPrice q = None ∧ exitTime q = None
     ∧ exitReason q = None ∧ pnl q = None
     ∧ legSeries K dataService d strike q = [])
    ∨ (isActive q = false
       ∧ ∃ tk r,
           tk ∈ legSeries K dataService d strike q
           ∧ exitPrice q = Some (ltp tk)
           ∧ exitTime q = Some (received_at tk)
           ∧ exitReason q = Some r
           ∧ pnl q = Some ((ltp tk - entryPrice q) * lotSize K)%float).
Proof.
  intros Hs q Hq. rewrite (final_positions K dataService d strike Hs) in Hq.
  apply list_elem_of_fmap in Hq as (p & -> & Hp).
  apply final_position_record.
  destruct (loopResult_dayInv K dataService d strike) as [_ _ Hwf _ _].
  rewrite Forall_forall in Hwf. by apply Hwf.
Qed.

(** The returned day carries the date it was asked for.  When a strike was
    found, the day and every one of its positions, the adjustment pair
    included, carry that strike; otherwise the day's strike is 0. *)
Theorem day_keeps_date_and_strike :
  let day := (processTradingDay K dataService d).1 in
  date day = d
  ∧ match strikeFound (getATMStrike dataService d (ENTRY_TIME K)) with
    | Some strike =>
        atmStrike day = strike
        ∧ ∀ q, q ∈ positions day → strikePrice q = strike
    | None => atmStrike day = 0%float
    end.
Proof.
  cbv zeta.
  destruct (strikeFound _) as [strike|] eqn:Hs.
  - destruct (loopResult_dayInv K dataService d strike) as [Hd Hk Hwf _ _].
    split; [|split].
    + by rewrite (processTradingDay_found K dataService d strike Hs).
    + by rewrite (processTradingDay_found K dataService d strike Hs).
    + intros q Hq. rewrite (final_positions K dataService d strike Hs) in Hq.
      apply list_elem_of_fmap in Hq as (p & -> & Hp).
      rewrite Forall_forall in Hwf. destruct (Hwf p Hp) as (Hsp & Hw).
      destruct (final_position_record K dataService d strike p (Hwf p Hp))
        as (Hst & _).
      cbv zeta in Hst. injection Hst as _ _ _ E. by rewrite E.
  - by rewrite (processTradingDay_skipped K dataService d Hs).
Qed.

(** When the day ends with four positions, the first two are the entry
    pair, both closed by a stop-loss or target rule and not at the end of the
    day, and the last two are the adjustment pair: a CALL and a PUT at the
    day's strike, entered at one timestamp that is strictly before the
    cutoff, at the prices the two legs traded at at that very timestamp;
    that timestamp is the exit time of an entry leg. *)
Theorem adjustment_pair_entry strike :
  strikeFound (getATMStrike dataService d (ENTRY_TIME K)) = Some strike →
  length (positions (processTradingDay K dataService d).1) = 4 →
  ∃ p0 p1 p2 p3 c p time,
    positions (processTradingDay K dataService d).1 = [p0; p1; p2; p3]
    ∧ isActive p0 = false ∧ isActive p1 = false
    ∧ exitReason p0 ≠ Some EOD ∧ exitReason p1 ≠ Some EOD
    ∧ (exitTime p0 = Some time ∨ exitTime p1 = Some time)
    ∧ (time < createDateTime K d (ADJUSTMENT_TIME K))%Z
    ∧ findTick (ceSeriesOf K dataService d strike) time = Some c
    ∧ findTick (peSeriesOf K dataService d strike) time = Some p
    ∧ static p2 = (CE, ltp c, time, strike)
    ∧ static p3 = (PE, ltp p, time, strike).
Proof.
  intros Hs Hlen. rewrite (final_positions K dataService d strike Hs) in *.
  destruct (loopResult_dayInv K dataService d strike) as [_ _ Hwf Hsh _].
  destruct Hsh as [p0 p1 Hl _ _
                  |p0 p1 p2 p3 c p t Hl H0 H1 Ha0 Ha1 Hex Hc Hp Ht H2 H3 Hd];
    rewrite Hl in *; [done|].
  apply Forall_cons in Hwf as [Hw0 Hwf]. apply Forall_cons in Hwf as [Hw1 Hwf].
  apply Forall_cons in Hwf as [Hw2 Hwf]. apply Forall_cons in Hwf as [Hw3 _].
  destruct (final_position_record K dataService d strike p0 Hw0)
    as (_ & Hc0 & _).
  destruct (final_position_record K dataService d strike p1 Hw1)
    as (_ & Hc1 & _).
  destruct (final_position_record K dataService d strike p2 Hw2) as (Hs2 & _).
  destruct (final_position_record K dataService d strike p3 Hw3) as (Hs3 & _).
  cbv zeta in *.
  destruct (Hc0 Ha0) as (Hf0 & Hr0 & Ht0). destruct (Hc1 Ha1) as (Hf1 & Hr1 & Ht1).
  eexists _, _, _, _, c, p, t. split; [done|].
  split; [done|]. split; [done|].
  split.
  { rewrite Hr0. destruct Hw0 as (_ & _ & [[? _]|(_ & _ & r & -> & Hr)]);
      [congruence|]. by intros [= ->]. }
  split.
  { rewrite Hr1. destruct Hw1 as (_ & _ & [[? _]|(_ & _ & r & -> & Hr)]);
      [congruence|]. by intros [= ->]. }
  split; [by rewrite Ht0, Ht1|].
  split; [done|]. split; [done|]. split; [done|].
  split; congruence.
Qed.

(** When either leg has no tick at all, the day makes no adjustment: it keeps
    its two entry positions, [madeAdjustment] stays false and no adjustment
    is reported as skipped. *)
Theorem no_adjustment_unless_both_legs_tick strike :
  strikeFound (getATMStrike dataService d (ENTRY_TIME K)) = Some strike →
  ceSeriesOf K dataService d strike = []
  ∨ peSeriesOf K dataService d strike = [] →
  madeAdjustment (processTradingDay K dataService d).1 = false
  ∧ length (positions (processTradingDay K dataService d).1) = 2
  ∧ SkippingAdjustment d ∉ (processTradingDay K dataService d).2.
Proof.
  intros Hs Hempty.
  destruct (processTradingDay_positions K dataService d strike Hs)
    as (Hflag & Hst & _ & Hskip). cbv zeta in *.
  destruct (loopResult_dayInv K dataService d strike) as [_ _ _ _ Htk].
  assert (Hdone : adjustmentDone (loopResult K dataService d strike) = false).
  { destruct (adjustmentDone _); [|done].
    destruct (Htk eq_refl) as [? ?]. by destruct Hempty. }
  rewrite Hflag, Hskip. split; [done|].
  apply static_type in Hst.
  assert (Hlen : length (positions (processTradingDay K dataService d).1)
                 = length (type <$> positions
                             (tradeDay (loopResult K dataService d strike))))
    by (by rewrite <- Hst, length_fmap).
  rewrite Hlen.
  destruct (LoopInv_types _ _ _ _ _ (loopResult_inv K dataService d strike))
    as [[Ht Hiff]|[_ Hd]]; [|congruence].
  rewrite Ht. split; [done|]. rewrite <- Hiff. congruence.
Qed.

(** The warnings of a day with a strike name exactly the legs that have no
    tick: the missing series of a leg is reported if and only if that leg's
    series is empty. *)
Theorem warnings_name_the_empty_series strike t :
  strikeFound (getATMStrike dataService d (ENTRY_TIME K)) = Some strike →
  NoTimeSeries t d ∈ (processTradingDay K dataService d).2
  ↔ seriesOf (ceSeriesOf K dataService d strike)
      (peSeriesOf K dataService d strike) t = [].
Proof.
  intros Hs. rewrite (processTradingDay_found K dataService d strike Hs).
  simpl. rewrite elem_of_app, exitRemaining_warnings.
  destruct (loopResult_inv K dataService d strike) as [_ _ _ Hw].
  destruct (loopResult_dayInv K dataService d strike) as [_ _ Hwf Hsh _].
  rewrite Forall_forall in Hwf.
  split.
  - intros [Hin|(p & Hp & Hin)]; [by apply Hw in Hin|].
    destruct (exitAtEOD_cases d (ceSeriesOf K dataService d strike)
                (peSeriesOf K dataService d strike) p)
      as [(_ & Hr)|[(_ & Hnil & Hr)|(_ & final & _ & Hr)]];
      rewrite Hr in Hin; simpl in Hin.
    + by apply not_elem_of_nil in Hin.
    + apply list_elem_of_singleton in Hin. by simplify_eq.
    + by apply not_elem_of_nil in Hin.
  - intros Hnil. right.
    assert (Hex : ∃ p, p ∈ positions (tradeDay (loopResult K dataService d strike))
                       ∧ type p = t).
    { destruct Hsh as [p0 p1 Hl H0 H1|p0 p1 ? ? ? ? ? Hl H0 H1];
        rewrite Hl; injection H0 as E0 _ _ _; injection H1 as E1 _ _ _;
        destruct t; [exists p0|exists p1|exists p0|exists p1];
        (split; [|done]); rewrite ?elem_of_cons; auto. }
    destruct Hex as (p & Hp & Ht). exists p. split; [done|]. subst t.
    pose proof (wellFormed_series _ _ _ p (Hwf p Hp)) as Hser.
    destruct (exitAtEOD_cases d (ceSeriesOf K dataService d strike)
                (peSeriesOf K dataService d strike) p)
      as [(Hf & _)|[(_ & _ & ->)|(_ & final & Hlast & _)]].
    + by destruct (Hser Hf).
    + by apply list_elem_of_singleton.
    + by rewrite Hnil in Hlast.
Qed.

(** A day that has a strike but no option tick at all: the loop has no
    event; the day keeps its two entry positions, open and unresolved, with a
    total of zero and no adjustment, and reports both series as missing. *)
Theorem day_without_option_ticks strike :
  strikeFound (getATMStrike dataService d (ENTRY_TIME K)) = Some strike →
  ceSeriesOf K dataService d strike = [] →
  peSeriesOf K dataService d strike = [] →
  processTradingDay K dataService d
  = ({| date := d; atmStrike := strike;
        positions := initialPositions K d strike
                       (cePriceOf K dataService d strike)
                       (pePriceOf K dataService d strike);
        totalPnl := 0%float;
        madeAdjustment := false;
        dayPnlPercent :=
          (0 / ((cePriceOf K dataService d strike
                 + pePriceOf K dataService d strike) * lotSize K) * 100)%float |},
     [NoTimeSeries CE d; NoTimeSeries PE d]).
Proof.
  intros Hs Hce Hpe.
  rewrite (processTradingDay_found K dataService d strike Hs).
  unfold loopResult. rewrite Hce, Hpe. reflexivity.
Qed.

End DayProperties.

(** ** The loop, event by event *)

Section LoopProperties.
Context (K : Constants) (d : string).
Context (ceTimeSeries peTimeSeries : list OptionData).

(** One iteration of the event loop, seen from the positions.  A position
    that was there before is still there, in the same place; it is unchanged
    unless it was active and its own leg ticks at this timestamp, in which
    case it may have been closed, at that tick's price and at this time.  In
    particular a closed position is never changed again, and a leg without a
    tick at this timestamp is left alone.  The list grows by nothing or by
    exactly two positions, and it grows only if no adjustment had been made
    and the timestamp is before the cutoff. *)
Theorem event_touches_only_ticking_active_positions time st :
  let ps := positions (tradeDay st) in
  let st' := (processEvent K d ceTimeSeries peTimeSeries time st).2 in
  let ps' := positions (tradeDay st') in
  (∀ i p, ps !! i = Some p →
     ∃ p', ps' !! i = Some p'
           ∧ (p' = p
              ∨ (isActive p = true ∧ isActive p' = false
                 ∧ ∃ tk, findTick (seriesOf ceTimeSeries peTimeSeries (type p))
                           time = Some tk
                         ∧ exitPrice p' = Some (ltp tk)
                         ∧ exitTime p' = Some time
                         ∧ static p' = static p)))
  ∧ (length ps' = length ps
     ∨ (length ps' = length ps + 2
        ∧ adjustmentDone st = false
        ∧ (time < createDateTime K d (ADJUSTMENT_TIME K))%Z
        ∧ is_Some (findTick ceTimeSeries time)
        ∧ is_Some (findTick peTimeSeries time))).
Proof.
  cbv zeta.
  destruct (processEvent_outcome K d ceTimeSeries peTimeSeries time st)
    as (_ & _ & _ & ps' & pair & Hps & Hstep & Hdone & Hpair).
  rewrite Hps. split.
  - intros i p Hp.
    destruct (Forall2_lookup_l _ _ _ _ _ Hstep Hp) as (p' & Hp' & Hs).
    exists p'. split; [by apply lookup_app_l_Some|].
    destruct Hs as [->|(Ha & tk & r & Htk & _ & ->)]; [by left|].
    right. split; [done|]. split; [done|]. by exists tk.
  - rewrite length_app, <- (Forall2_length _ _ _ Hstep).
    destruct Hpair as [->|(Hf & Ht & c & p & Hc & Hp & ->)].
    + left. simpl. lia.
    + right. split; [done|]. split; [done|].
      destruct Hdone as [E|(_ & _ & Hcut & _)]; [congruence|].
      rewrite Hc, Hp. eauto.
Qed.

(** At every point of the event loop there is at most one active position
    per leg: two active positions of the same type are the same position.
    The [find] that picks the active CALL, or PUT, has nothing to choose
    between. *)
Theorem one_active_position_per_leg strike cePrice pePrice times i j p q :
  let ps := positions (tradeDay
              (eventLoop K d ceTimeSeries peTimeSeries times
                 (startState K d strike cePrice pePrice))) in
  ps !! i = Some p → ps !! j = Some q →
  type p = type q → isActive p = true → isActive q = true →
  i = j.
Proof.
  cbv zeta. intros Hp Hq Ht Hap Haq.
  destruct (eventLoop_dayInv K d ceTimeSeries peTimeSeries strike cePrice
              pePrice times) as [_ _ _ Hsh _].
  destruct Hsh as [p0 p1 Hl H0 H1
                  |p0 p1 p2 p3 c' p' t Hl H0 H1 Ha0 Ha1 _ _ _ _ H2 H3 _];
    rewrite Hl in Hp, Hq;
    injection H0 as E0 _ _ _; injection H1 as E1 _ _ _.
  - destruct i as [|[|?]], j as [|[|?]]; simplify_eq/=; congruence.
  - injection H2 as E2 _ _ _. injection H3 as E3 _ _ _.
    destruct i as [|[|[|[|?]]]], j as [|[|[|[|?]]]]; simplify_eq/=; congruence.
Qed.

Lemma allExited_findActive t (ps : list Position) :
  allExited ps = true → findActive t ps = None.
Proof.
  intros Hall%allExited_Forall. unfold findActive.
  apply fmap_None, list_find_None. rewrite Forall_forall in *.
  intros p Hp [_ Ha]. specialize (Hall p Hp). congruence.
Qed.

(** Once every position is inactive the loop is over: the events that come
    after the point where the last position was closed change nothing, not
    even a pending adjustment. *)
Theorem ticks_after_last_close_are_ignored times later st :
  allExited (positions (tradeDay
     (eventLoop K d ceTimeSeries peTimeSeries times st))) = true →
  eventLoop K d ceTimeSeries peTimeSeries (times ++ later) st
  = eventLoop K d ceTimeSeries peTimeSeries times st.
Proof.
  revert st. induction times as [|time times IH]; intros st Hall; simpl in *.
  - destruct later as [|time later]; [done|]. simpl.
    unfold processEvent.
    by rewrite !(allExited_findActive _ _ Hall).
  - destruct (processEvent _ _ _ _ _ _) as [[|] st']; [done|]. by apply IH.
Qed.

End LoopProperties.

(** ** The event clock *)

Lemma StronglySorted_le_lt (l : list Z) :
  StronglySorted Z.le l → NoDup l → StronglySorted Z.lt l.
Proof.
  induction 1 as [|x l Hs IH Hx]; intros Hnd; [constructor|].
  apply NoDup_cons in Hnd as [Hnin Hnd].
  constructor; [by apply IH|].
  rewrite Forall_forall in *. intros y Hy.
  specialize (Hx y Hy). assert (x ≠ y) by (by intros ->). lia.
Qed.

Global Instance isoLe_total : Total isoLe.
Proof.
  intros a b. unfold isoLe, keyLe.
  destruct (isoKey a) as [[g1 y1] m1], (isoKey b) as [[g2 y2] m2]. simpl. lia.
Qed.

Global Instance isoLe_trans : Transitive isoLe.
Proof.
  intros a b c. unfold isoLe, keyLe.
  destruct (isoKey a) as [[g1 y1] m1], (isoKey b) as [[g2 y2] m2],
           (isoKey c) as [[g3 y3] m3]. simpl. lia.
Qed.

(** On years written with four digits the order of the strings is the order
    of time. *)
Lemma isoLe_fourDigitYear a b :
  fourDigitYear a → fourDigitYear b → isoLe a b → (a ≤ b)%Z.
Proof.
  unfold fourDigitYear, isoLe, keyLe, isoKey. intros Ha Hb.
  rewrite !(proj2 (Z.leb_gt _ _)), !(proj2 (Z.ltb_ge _ _)) by lia.
  simpl. lia.
Qed.

Lemma sortedTimes_elem (ceTimeSeries peTimeSeries : list OptionData) t :
  t ∈ sortedTimes ceTimeSeries peTimeSeries
  ↔ ∃ tk, (tk ∈ ceTimeSeries ∨ tk ∈ peTimeSeries) ∧ received_at tk = t.
Proof.
  unfold sortedTimes. rewrite merge_sort_Permutation, elem_of_remove_dups.
  rewrite list_elem_of_fmap. split.
  - intros (tk & -> & Hin). apply elem_of_app in Hin. by exists tk.
  - intros (tk & Hin & <-). exists tk. split; [done|].
    by apply elem_of_app.
Qed.

Lemma sortedTimes_NoDup (ceTimeSeries peTimeSeries : list OptionData) :
  NoDup (sortedTimes ceTimeSeries peTimeSeries).
Proof.
  unfold sortedTimes. rewrite merge_sort_Permutation. apply NoDup_remove_dups.
Qed.

Lemma StronglySorted_iso_lt (l : list Z) :
  Forall fourDigitYear l → NoDup l →
  StronglySorted isoLe l → StronglySorted Z.lt l.
Proof.
  intros Hr Hnd Hs. apply StronglySorted_le_lt; [|done].
  induction Hs as [|x l Hs IH Hx]; [constructor|].
  apply Forall_cons in Hr as [Hrx Hr]. apply NoDup_cons in Hnd as [_ Hnd].
  constructor; [by apply IH|].
  rewrite Forall_forall in *. intros y Hy.
  apply isoLe_fourDigitYear; auto.
Qed.

(** With every tick in a year written with four digits, the clock runs
    forward in time. *)
Lemma sortedTimes_sorted (ceTimeSeries peTimeSeries : list OptionData) :
  Forall (λ tk, fourDigitYear (received_at tk)) ceTimeSeries →
  Forall (λ tk, fourDigitYear (received_at tk)) peTimeSeries →
  StronglySorted Z.lt (sortedTimes ceTimeSeries peTimeSeries).
Proof.
  intros Hce Hpe. apply StronglySorted_iso_lt.
  - apply Forall_forall. intros t (tk & Hin & <-)%sortedTimes_elem.
    rewrite Forall_forall in Hce, Hpe. destruct Hin; auto.
  - apply sortedTimes_NoDup.
  - unfold sortedTimes. apply StronglySorted_merge_sort; apply _.
Qed.

(** The event clock of a day is the set of the timestamps of the two tick
    series: it has no repetition, and a timestamp is on the clock exactly
    when one of the legs has a tick with it.  Its order is the order of the
    ISO strings of the timestamps; when every tick lies in a year written
    with four digits (0000 to 9999) that is the order of time, strictly
    ascending.  A tick of a later year is put before all of those. *)
Theorem sortedTimes_is_merged_clock (ceTimeSeries peTimeSeries : list OptionData) :
  NoDup (sortedTimes ceTimeSeries peTimeSeries)
  ∧ (∀ t, t ∈ sortedTimes ceTimeSeries peTimeSeries
          ↔ ∃ tk, (tk ∈ ceTimeSeries ∨ tk ∈ peTimeSeries) ∧ received_at tk = t)
  ∧ StronglySorted isoLe (sortedTimes ceTimeSeries peTimeSeries)
  ∧ (Forall (λ tk, fourDigitYear (received_at tk)) ceTimeSeries →
     Forall (λ tk, fourDigitYear (received_at tk)) peTimeSeries →
     StronglySorted Z.lt (sortedTimes ceTimeSeries peTimeSeries))
  ∧ (∀ a b, fourDigitYear a → (yearTenThousand ≤ b)%Z →
            isoLe b a ∧ ¬ isoLe a b).
Proof.
  split; [apply sortedTimes_NoDup|]. split; [apply sortedTimes_elem|].
  split; [unfold sortedTimes; apply StronglySorted_merge_sort; apply _|].
  split; [apply sortedTimes_sorted|].
  intros a b Ha Hb. unfold fourDigitYear in Ha.
  unfold isoLe, keyLe, isoKey.
  rewrite (proj2 (Z.leb_gt yearTenThousand a)) by lia.
  rewrite (proj2 (Z.ltb_ge a yearZero)) by lia.
  rewrite (proj2 (Z.leb_le yearTenThousand b)) by lia.
  simpl. lia.
Qed.

(** The clock on instants of the years 1970, 10000 and -1: the string of
    year 10000 begins with [+] and comes first, that of year -1 begins with
    [-] and comes second. *)
Example clock_order_across_year_widths :
  yearOf t1 = 1970%Z ∧ yearOf yearTenThousand = 10000%Z
  ∧ yearOf (yearZero - 1) = (-1)%Z ∧ yearOf yearZero = 0%Z
  ∧ sortedTimes [tick t1 100; tick yearTenThousand 70; tick (yearZero - 1) 80]
      [tick t2 70]
    = [yearTenThousand; yearZero - 1; t1; t2]%Z.
Proof. vm_compute. done. Qed.

(** ** The runner, continued *)

Section RunnerProperties.
Context (K : Constants) (dataService : DataService).

Lemma processTradingDay_date d :
  date (processTradingDay K dataService d).1 = d.
Proof.
  destruct (strikeFound (getATMStrike dataService d (ENTRY_TIME K)))
    as [strike|] eqn:Hs.
  - rewrite (processTradingDay_found K dataService d strike Hs). simpl.
    by destruct (loopResult_dayInv K dataService d strike).
  - by rewrite (processTradingDay_skipped K dataService d Hs).
Qed.

(** The result lists one day per requested date, in the order of the
    request, each under its own date. *)
Theorem runBacktest_days_follow_dates (ds : list string) :
  date <$> days (runBacktest K dataService ds) = ds.
Proof.
  unfold runBacktest. simpl. rewrite runDays_days. simpl.
  induction ds as [|d ds IH]; csimpl; [done|].
  f_equal; [apply processTradingDay_date|apply IH].
Qed.

Lemma skipped_day_wins d :
  strikeFound (getATMStrike dataService d (ENTRY_TIME K)) = None →
  isWinning (processTradingDay K dataService d).1 = true
  ∧ totalPnl (processTradingDay K dataService d).1 = 0%float.
Proof.
  intros Hs. by rewrite (processTradingDay_skipped K dataService d Hs).
Qed.

(** A day for which no strike is found is not dropped: it is in the result,
    with a total of zero, and it is counted as a winning day.  A backtest
    over dates that all lack a strike therefore reports every day as won,
    none as lost, and a total of zero. *)
Theorem days_without_strike_count_as_won (ds : list string) :
  Forall (λ d, strikeFound (getATMStrike dataService d (ENTRY_TIME K)) = None)
    ds →
  let r := runBacktest K dataService ds in
  winningDays r = length ds ∧ losingDays r = 0
  ∧ resultTotalPnl r = 0%float
  ∧ Forall (λ day, positions day = [] ∧ totalPnl day = 0%float) (days r).
Proof.
  intros Hall. cbv zeta. unfold runBacktest. simpl.
  pose proof (runDays_days K dataService ds (emptyResult)) as Hd.
  pose proof (runDays_counts K dataService ds (emptyResult)) as [Hw Hl].
  pose proof (runDays_total K dataService ds (emptyResult)) as Ht.
  simpl in Hd, Hw, Hl, Ht. rewrite Hd, Hw, Hl, Ht. clear Hd Hw Hl Ht.
  induction Hall as [|d ds Hd Hall IH]; csimpl; [done|].
  destruct (skipped_day_wins d Hd) as [Hwin Hzero].
  rewrite Hwin, Hzero. csimpl. change (0 + 0)%float with 0%float.
  destruct IH as (IHw & IHl & IHt & IHf).
  split; [by rewrite IHw|]. split; [done|]. split; [done|].
  constructor; [|done].
  by rewrite (processTradingDay_skipped K dataService d Hd).
Qed.

(** Running the backtest on two date lists one after the other gives the
    days of the first followed by the days of the second, and the winning
    and losing counts add up. *)
Theorem runBacktest_app (ds1 ds2 : list string) :
  let r := runBacktest K dataService (ds1 ++ ds2) in
  let r1 := runBacktest K dataService ds1 in
  let r2 := runBacktest K dataService ds2 in
  days r = days r1 ++ days r2
  ∧ winningDays r = winningDays r1 + winningDays r2
  ∧ losingDays r = losingDays r1 + losingDays r2.
Proof.
  cbv zeta. unfold runBacktest. simpl.
  rewrite !runDays_days. simpl.
  destruct (runDays_counts K dataService (ds1 ++ ds2) (emptyResult)) as [-> ->].
  destruct (runDays_counts K dataService ds1 (emptyResult)) as [-> ->].
  destruct (runDays_counts K dataService ds2 (emptyResult)) as [-> ->].
  simpl. rewrite !fmap_app, !List.filter_app, !length_app. done.
Qed.

End RunnerProperties.

(** ** Lot size and rounding unit *)

(** Whatever the index name, the lot size is one of 75, 30, 120 and 65 and
    the rounding unit one of 100, 50 and 25: an unknown name falls back to 30
    and 100, so both are always finite and positive. *)
Theorem lot_size_and_round_value_positive (indexName : string) :
  (getLotSize indexName = 75%float ∨ getLotSize indexName = 30%float
   ∨ getLotSize indexName = 120%float ∨ getLotSize indexName = 65%float)
  ∧ (getRoundValue indexName = 100%float ∨ getRoundValue indexName = 50%float
     ∨ getRoundValue indexName = 25%float)
  ∧ is_finite (getLotSize indexName) = true
  ∧ (0 <? getLotSize indexName)%float = true
  ∧ is_finite (getRoundValue indexName) = true
  ∧ (0 <? getRoundValue indexName)%float = true.
Proof.
  unfold getLotSize, getRoundValue. cbv zeta.
  repeat destruct (String.eqb _ _); repeat split; auto.
Qed.

(** ** The properties above at sample days *)

(** The first position of the day of [dropTwice]. *)
Lemma position_records_are_consistent_witness :
  ∃ q, positions (processTradingDay defaults dropTwice sampleDate).1 !! 0
       = Some q
       ∧ ((isActive q = true ∧ exitPrice q = None ∧ exitTime q = None
           ∧ exitReason q = None ∧ pnl q = None
           ∧ legSeries defaults dropTwice sampleDate 50000 q = [])
          ∨ (isActive q = false
             ∧ ∃ tk r,
                 tk ∈ legSeries defaults dropTwice sampleDate 50000 q
                 ∧ exitPrice q = Some (ltp tk)
                 ∧ exitTime q = Some (received_at tk)
                 ∧ exitReason q = Some r
                 ∧ pnl q = Some ((ltp tk - entryPrice q) * lotSize defaults)%float)).
Proof.
  eexists. split; [vm_compute; reflexivity|].
  apply (position_records_are_consistent defaults dropTwice sampleDate 50000
           eq_refl).
  vm_compute. apply list_elem_of_here.
Defined.

(** The day of [dropTwice] ends with four positions. *)
Lemma adjustment_pair_entry_witness :
  ∃ p0 p1 p2 p3 c p time,
    positions (processTradingDay defaults dropTwice sampleDate).1
    = [p0; p1; p2; p3]
    ∧ isActive p0 = false ∧ isActive p1 = false
    ∧ exitReason p0 ≠ Some EOD ∧ exitReason p1 ≠ Some EOD
    ∧ (exitTime p0 = Some time ∨ exitTime p1 = Some time)
    ∧ (time < createDateTime defaults sampleDate (ADJUSTMENT_TIME defaults))%Z
    ∧ findTick (ceSeriesOf defaults dropTwice sampleDate 50000) time = Some c
    ∧ findTick (peSeriesOf defaults dropTwice sampleDate 50000) time = Some p
    ∧ static p2 = (CE, ltp c, time, 50000%float)
    ∧ static p3 = (PE, ltp p, time, 50000%float).
Proof.
  apply (adjustment_pair_entry defaults dropTwice sampleDate 50000).
  - reflexivity.
  - vm_compute. reflexivity.
Defined.

(** The put of [callOnly] never ticks. *)
Lemma no_adjustment_unless_both_legs_tick_witness :
  madeAdjustment (processTradingDay defaults callOnly sampleDate).1 = false
  ∧ length (positions (processTradingDay defaults callOnly sampleDate).1) = 2
  ∧ SkippingAdjustment sampleDate
    ∉ (processTradingDay defaults callOnly sampleDate).2.
Proof.
  apply (no_adjustment_unless_both_legs_tick defaults callOnly sampleDate 50000).
  - reflexivity.
  - right. reflexivity.
Defined.

Lemma warnings_name_the_empty_series_witness :
  NoTimeSeries PE sampleDate ∈ (processTradingDay defaults callOnly sampleDate).2
  ↔ seriesOf (ceSeriesOf defaults callOnly sampleDate 50000)
      (peSeriesOf defaults callOnly sampleDate 50000) PE = [].
Proof.
  apply (warnings_name_the_empty_series defaults callOnly sampleDate 50000 PE).
  reflexivity.
Defined.

Lemma day_without_option_ticks_witness :
  processTradingDay defaults noTicks sampleDate
  = ({| date := sampleDate; atmStrike := 50000%float;
        positions := initialPositions defaults sampleDate 50000
                       (cePriceOf defaults noTicks sampleDate 50000)
                       (pePriceOf defaults noTicks sampleDate 50000);
        totalPnl := 0%float;
        madeAdjustment := false;
        dayPnlPercent :=
          (0 / ((cePriceOf defaults noTicks sampleDate 50000
                 + pePriceOf defaults noTicks sampleDate 50000)
                * lotSize defaults) * 100)%float |},
     [NoTimeSeries CE sampleDate; NoTimeSeries PE sampleDate]).
Proof.
  apply (day_without_option_ticks defaults noTicks sampleDate 50000);
    reflexivity.
Defined.

(** After the event [t1] of [dropTicks] the adjustment call, at index 2, is
    the one active call. *)
Lemma one_active_position_per_leg_witness :
  ∃ p, positions (tradeDay
         (eventLoop defaults sampleDate dropTicks dropTicks [t1]
            (startState defaults sampleDate 50000 100 100))) !! 2 = Some p
       ∧ isActive p = true ∧ type p = CE ∧ 2 = 2.
Proof.
  eexists. split; [vm_compute; reflexivity|].
  split; [reflexivity|]. split; [reflexivity|].
  eapply (one_active_position_per_leg defaults sampleDate dropTicks dropTicks
            50000 100 100 [t1] 2 2); vm_compute; reflexivity.
Defined.

(** On [dropTicks] everything is closed after [t2]; the tick at [t3] is not
    looked at. *)
Lemma ticks_after_last_close_are_ignored_witness :
  eventLoop defaults sampleDate dropTicks dropTicks ([t1; t2] ++ [t3])
    (startState defaults sampleDate 50000 100 100)
  = eventLoop defaults sampleDate dropTicks dropTicks [t1; t2]
      (startState defaults sampleDate 50000 100 100).
Proof.
  apply (ticks_after_last_close_are_ignored defaults sampleDate dropTicks
           dropTicks [t1; t2] [t3]).
  vm_compute. reflexivity.
Defined.

Lemma days_without_strike_count_as_won_witness :
  let r := runBacktest defaults noStrike [earlierDate; sampleDate] in
  winningDays r = 2 ∧ losingDays r = 0
  ∧ resultTotalPnl r = 0%float
  ∧ Forall (λ day, positions day = [] ∧ totalPnl day = 0%float) (days r).
Proof.
  apply (days_without_strike_count_as_won defaults noStrike
           [earlierDate; sampleDate]).
  repeat constructor.
Defined.

(** ** calculateDayPnL, continued *)

Lemma withPnl_twice lot p : withPnl lot (withPnl lot p) = withPnl lot p.
Proof.
  unfold withPnl at 1. rewrite positionPnl_withPnl.
  unfold withPnl. by destruct (positionPnl lot p).
Qed.

(** [calculateDayPnL] changes nothing but the [pnl] field, and that only on
    positions that have an exit price; and what it does does not depend on
    the [pnl] values it finds: calling it again on the positions it returned
    gives the same positions and the same total. *)
Theorem calculateDayPnL_idempotent (K : Constants) (day : TradeDay) :
  let r := calculateDayPnL K day in
  calculateDayPnL K (set_positions r.1 day) = r
  ∧ Forall2 (λ p q, q = p ∨ ∃ v, is_Some (exitPrice p) ∧ q = set_pnl v p)
      (positions day) r.1.
Proof.
  cbv zeta. rewrite !calculateDayPnL_spec. simpl. split.
  - f_equal; [|apply sumOfPositionPnl_withPnl].
    rewrite <- list_fmap_compose. apply list_fmap_ext.
    intros i p _. apply withPnl_twice.
  - apply Forall2_fmap_r, Forall_Forall2_diag, Forall_forall.
    intros p _. unfold compose, withPnl, positionPnl.
    destruct (exitPrice p) as [x|]; simpl; [|by left].
    right. eexists. split; [by eexists|done].
Qed.

(** ** The day's percentage when no entry price was found *)

Lemma non_finite_SF x :
  Prim2SF x = S754_nan ∨ (∃ s, Prim2SF x = S754_infinity s) →
  is_finite x = false.
Proof.
  unfold is_finite, is_nan, is_infinity.
  rewrite !FloatAxioms.eqb_spec, FloatAxioms.abs_spec.
  change (Prim2SF infinity) with (S754_infinity false).
  intros [->|[s ->]]; [done|]. by destruct s.
Qed.

(** When the data service found no entry price for either leg (it answers 0
    for both), the day's percentage is the total divided by zero: it is never
    a finite number, whatever the day's total. *)
Theorem zero_entry_prices_give_no_percentage
    (K : Constants) (dataService : DataService) (d : string) strike :
  strikeFound (getATMStrike dataService d (ENTRY_TIME K)) = Some strike →
  cePriceOf K dataService d strike = 0%float →
  pePriceOf K dataService d strike = 0%float →
  is_finite (dayPnlPercent (processTradingDay K dataService d).1) = false.
Proof.
  intros Hs Hce Hpe.
  rewrite (processTradingDay_found K dataService d strike Hs). simpl.
  rewrite Hce, Hpe. apply non_finite_SF.
  rewrite FloatAxioms.mul_spec, FloatAxioms.div_spec.
  destruct SF_hundred as (m & e & ->).
  assert (Hz : Prim2SF ((0 + 0) * lotSize K)%float = S754_zero false).
  { unfold lotSize, getLotSize. cbv zeta.
    repeat destruct (String.eqb _ _); reflexivity. }
  rewrite Hz. clear Hz.
  generalize (sumOfPositionPnl (lotSize K)
    (exitRemaining d (ceSeriesOf K dataService d strike)
       (peSeriesOf K dataService d strike)
       (positions (tradeDay (loopResult K dataService d strike)))).1).
  intros total.
  destruct (Prim2SF total) as [[|]|[|]| |[|] mx ex]; simpl; eauto.
Qed.

Lemma zero_entry_prices_give_no_percentage_witness :
  is_finite (dayPnlPercent (processTradingDay defaults zeroEntry sampleDate).1)
  = false.
Proof.
  apply (zero_entry_prices_give_no_percentage defaults zeroEntry sampleDate
           50000); reflexivity.
Defined.

(** ** A combined exit and the adjustment *)

(** When the combined target or the combined stop loss fires at an event
    before the cutoff at which both legs tick, with the entry pair still open
    and no adjustment made, both legs are closed at their tick prices and the
    adjustment pair is opened in the same iteration, at those same prices: a
    combined exit is followed at once by a re-entry. *)
Theorem combined_exit_reenters_at_once (K : Constants) (d : string)
    (ceTimeSeries peTimeSeries : list OptionData) time st p0 p1 c p :
  positions (tradeDay st) = [p0; p1] →
  type p0 = CE → type p1 = PE →
  isActive p0 = true → isActive p1 = true →
  adjustmentDone st = false →
  findTick ceTimeSeries time = Some c →
  findTick peTimeSeries time = Some p →
  (time < createDateTime K d (ADJUSTMENT_TIME K))%Z →
  exitBoth K (totalChange [p0; p1] (Some 0) (Some 1) (Some c) (Some p)) = true →
  let st' := (processEvent K d ceTimeSeries peTimeSeries time st).2 in
  madeAdjustment (tradeDay st') = true
  ∧ adjustmentDone st' = true
  ∧ ∃ r0 r1,
      r0 ≠ EOD ∧ r1 ≠ EOD
      ∧ positions (tradeDay st')
        = [ exitPosition (ltp c) time r0 p0;
            exitPosition (ltp p) time r1 p1;
            newPosition CE (ltp c) time (atmStrike (tradeDay st));
            newPosition PE (ltp p) time (atmStrike (tradeDay st)) ].
Proof.
  intros Hl Ht0 Ht1 Ha0 Ha1 Hdone Hc Hp Hcut Hboth. cbv zeta.
  assert (Hce : findActive CE [p0; p1] = Some 0).
  { unfold findActive. simpl. rewrite decide_True; done. }
  assert (Hpe : findActive PE [p0; p1] = Some 1).
  { unfold findActive. simpl.
    rewrite decide_False by (intros [? _]; congruence).
    rewrite decide_True; done. }
  unfold processEvent. rewrite Hl, Hce, Hpe, Hc, Hp. simpl.
  unfold adjustment. simpl. rewrite Hdone. simpl.
  rewrite bool_decide_true by done.
  unfold exitBoth in Hboth.
  unfold applyExits, combinedChecks, individualSL, exitLeg, exitAt.
  destruct (geq _ _) eqn:Hg; [clear Hboth|destruct (leq _ _) eqn:Hle; [|done]];
    simpl; repeat (case_match; simpl); simplify_eq/=;
    (split; [done|]); (split; [done|]); eexists _, _;
    (split; [|split; [|reflexivity]]); done.
Qed.

(** ** Exits and entries in the order of the clock *)

Section TimeOrder.
Context (K : Constants) (d : string).
Context (ceTimeSeries peTimeSeries : list OptionData).
Context (strike cePrice pePrice : float).

Lemma eventStep_marks time p p' :
  eventStep ceTimeSeries peTimeSeries time p p' →
  entryTime p' = entryTime p
  ∧ (exitTime p' = exitTime p ∨ exitTime p' = Some time).
Proof.
  intros [->|(_ & tk & r & _ & _ & ->)]; [by split; [|left]|].
  split; [done|by right].
Qed.

Lemma eventOutcome_inOrder time st st' :
  eventOutcome K d ceTimeSeries peTimeSeries time st st' →
  DayInv K d ceTimeSeries peTimeSeries strike cePrice pePrice st →
  marksBelow time (positions (tradeDay st)) →
  inOrder (positions (tradeDay st)) →
  inOrder (positions (tradeDay st'))
  ∧ ∀ t', (time < t')%Z → marksBelow t' (positions (tradeDay st')).
Proof.
  intros (_ & _ & _ & ps' & pair & Hps & Hstep & _ & Hpair)
         [_ _ _ Hsh _] [Hex Hen] Hord.
  rewrite Hps.
  destruct Hsh as [p0 p1 Hl _ _
                  |p0 p1 p2 p3 c p t Hl _ _ Ha0 Ha1 _ _ _ _ _ _ Hd];
    rewrite Hl in *.
  - apply Forall2_cons_inv_l in Hstep as (q0 & l0 & Hs0 & Hstep & ->).
    apply Forall2_cons_inv_l in Hstep as (q1 & l1 & Hs1 & Hstep & ->).
    apply Forall2_nil_inv_l in Hstep as ->.
    apply Forall_cons in Hex as [Hx0 Hex]. apply Forall_cons in Hex as [Hx1 _].
    destruct (eventStep_marks _ _ _ Hs0) as [_ Hm0].
    destruct (eventStep_marks _ _ _ Hs1) as [_ Hm1].
    assert (Hq0 : ∀ x, exitTime q0 = Some x → (x ≤ time)%Z).
    { intros x Hx. destruct Hm0 as [E|E]; rewrite E in Hx.
      - specialize (Hx0 x Hx). lia.
      - injection Hx as <-. lia. }
    assert (Hq1 : ∀ x, exitTime q1 = Some x → (x ≤ time)%Z).
    { intros x Hx. destruct Hm1 as [E|E]; rewrite E in Hx.
      - specialize (Hx1 x Hx). lia.
      - injection Hx as <-. lia. }
    destruct Hpair as [->|(_ & _ & c & p & _ & _ & ->)]; simpl.
    + split; [done|]. intros t' Ht'. split; [|constructor].
      constructor; [intros x Hx; specialize (Hq0 x Hx); lia|].
      constructor; [intros x Hx; specialize (Hq1 x Hx); lia|]. constructor.
    + split; [done|]. intros t' Ht'. split.
      * constructor; [intros x Hx; specialize (Hq0 x Hx); lia|].
        constructor; [intros x Hx; specialize (Hq1 x Hx); lia|].
        constructor; [done|]. constructor; [done|]. constructor.
      * simpl. constructor; [done|]. constructor; [done|]. constructor.
  - destruct Hpair as [->|(Hf & _)]; [|congruence].
    apply Forall2_cons_inv_l in Hstep as (q0 & l0 & Hs0 & Hstep & ->).
    apply Forall2_cons_inv_l in Hstep as (q1 & l1 & Hs1 & Hstep & ->).
    apply Forall2_cons_inv_l in Hstep as (q2 & l2 & Hs2 & Hstep & ->).
    apply Forall2_cons_inv_l in Hstep as (q3 & l3 & Hs3 & Hstep & ->).
    apply Forall2_nil_inv_l in Hstep as ->.
    apply eventStep_closed in Hs0, Hs1; [|done..]. subst q0 q1.
    destruct (eventStep_marks _ _ _ Hs2) as [He2 Hm2].
    destruct (eventStep_marks _ _ _ Hs3) as [He3 Hm3].
    apply Forall_cons in Hex as [Hx0 Hex]. apply Forall_cons in Hex as [Hx1 Hex].
    apply Forall_cons in Hex as [Hx2 Hex]. apply Forall_cons in Hex as [Hx3 _].
    simpl in Hen.
    apply Forall_cons in Hen as [Hn2 Hen]. apply Forall_cons in Hen as [Hn3 _].
    destruct Hord as (Ho0 & Ho1 & Ho23 & Ho2 & Ho3). simpl.
    rewrite He2, He3.
    assert (Hq2 : ∀ x, exitTime q2 = Some x →
                       (entryTime p2 < x)%Z ∧ (x ≤ time)%Z).
    { intros x Hx. destruct Hm2 as [E|E]; rewrite E in Hx.
      - specialize (Hx2 x Hx). specialize (Ho2 x Hx). lia.
      - injection Hx as <-. lia. }
    assert (Hq3 : ∀ x, exitTime q3 = Some x →
                       (entryTime p2 < x)%Z ∧ (x ≤ time)%Z).
    { intros x Hx. destruct Hm3 as [E|E]; rewrite E in Hx.
      - specialize (Hx3 x Hx). specialize (Ho3 x Hx). lia.
      - injection Hx as <-. lia. }
    split.
    + split; [done|]. split; [done|]. split; [done|].
      split; intros x Hx; [by apply Hq2|by apply Hq3].
    + intros t' Ht'. split.
      * constructor; [intros x Hx; specialize (Hx0 x Hx); lia|].
        constructor; [intros x Hx; specialize (Hx1 x Hx); lia|].
        constructor; [intros x Hx; destruct (Hq2 x Hx); lia|].
        constructor; [intros x Hx; destruct (Hq3 x Hx); lia|]. constructor.
      * simpl. constructor; [rewrite He2; lia|].
        constructor; [rewrite He3; lia|]. constructor.
Qed.

Lemma eventLoop_inOrder times st :
  StronglySorted Z.lt times →
  DayInv K d ceTimeSeries peTimeSeries strike cePrice pePrice st →
  Forall (λ t, marksBelow t (positions (tradeDay st))) times →
  inOrder (positions (tradeDay st)) →
  inOrder (positions (tradeDay
             (eventLoop K d ceTimeSeries peTimeSeries times st))).
Proof.
  intros Hsorted. revert st.
  induction Hsorted as [|time times Hs IH Hlt]; intros st Hinv Hmarks Hord;
    simpl; [done|].
  apply Forall_cons in Hmarks as [Hm _].
  pose proof (processEvent_outcome K d ceTimeSeries peTimeSeries time st)
    as Hout.
  pose proof (processEvent_dayInv K d ceTimeSeries peTimeSeries strike cePrice
                pePrice time st Hinv) as Hinv'.
  destruct (eventOutcome_inOrder time st _ Hout Hinv Hm Hord) as [Hord' Hm'].
  destruct (processEvent _ _ _ _ _ _) as [[|] st']; simpl in *; [done|].
  apply IH; [done| |done].
  rewrite Forall_forall in *. intros t' Ht'. apply Hm'. by apply Hlt.
Qed.

End TimeOrder.

(** When every tick of the day lies in a year written with four digits
    (0000 to 9999), the clock of the day runs forward in time.  If the
    returned day then has an adjustment pair, each entry leg was closed no
    later than the pair was entered, the two legs of the pair were entered at
    the same time, and a leg of the pair that a stop-loss or target rule
    closed was closed at a strictly later timestamp than it was entered. *)
Theorem adjustment_follows_the_exits
    (K : Constants) (dataService : DataService) (d : string) strike
    p0 p1 p2 p3 :
  strikeFound (getATMStrike dataService d (ENTRY_TIME K)) = Some strike →
  Forall (λ tk, fourDigitYear (received_at tk))
    (ceSeriesOf K dataService d strike) →
  Forall (λ tk, fourDigitYear (received_at tk))
    (peSeriesOf K dataService d strike) →
  positions (processTradingDay K dataService d).1 = [p0; p1; p2; p3] →
  (∀ x, exitTime p0 = Some x → (x ≤ entryTime p2)%Z)
  ∧ (∀ x, exitTime p1 = Some x → (x ≤ entryTime p2)%Z)
  ∧ entryTime p3 = entryTime p2
  ∧ (∀ x, exitTime p2 = Some x → exitReason p2 ≠ Some EOD →
          (entryTime p2 < x)%Z)
  ∧ (∀ x, exitTime p3 = Some x → exitReason p3 ≠ Some EOD →
          (entryTime p3 < x)%Z).
Proof.
  intros Hs Hce Hpe Hl.
  rewrite (final_positions K dataService d strike Hs) in Hl.
  pose proof (loopResult_dayInv K dataService d strike) as Hinv.
  assert (Hord : inOrder (positions (tradeDay (loopResult K dataService d strike)))).
  { unfold loopResult.
    apply (eventLoop_inOrder K d _ _ strike (cePriceOf K dataService d strike)
             (pePriceOf K dataService d strike)).
    - by apply sortedTimes_sorted.
    - apply startState_dayInv.
    - apply Forall_forall. intros t _. split; simpl.
      + constructor; [done|]. constructor; [done|]. constructor.
      + constructor.
    - done. }
  destruct Hinv as [_ _ Hwf Hsh _].
  destruct Hsh as [q0 q1 Hq _ _
                  |q0 q1 q2 q3 c p t Hq _ _ Ha0 Ha1 _ _ _ _ _ _ _];
    rewrite Hq in *; [done|].
  simpl in Hl. injection Hl as <- <- <- <-.
  apply Forall_cons in Hwf as [Hw0 Hwf]. apply Forall_cons in Hwf as [Hw1 Hwf].
  apply Forall_cons in Hwf as [Hw2 Hwf]. apply Forall_cons in Hwf as [Hw3 _].
  destruct (final_position_record K dataService d strike q0 Hw0)
    as (_ & Hc0 & _).
  destruct (final_position_record K dataService d strike q1 Hw1)
    as (_ & Hc1 & _).
  destruct (final_position_record K dataService d strike q2 Hw2)
    as (Hs2 & Hc2 & _).
  destruct (final_position_record K dataService d strike q3 Hw3)
    as (Hs3 & Hc3 & _).
  cbv zeta in *.
  destruct (Hc0 Ha0) as (_ & _ & Ht0). destruct (Hc1 Ha1) as (_ & _ & Ht1).
  destruct Hord as (Ho0 & Ho1 & Ho23 & Ho2 & Ho3).
  injection Hs2 as _ _ E2 _. injection Hs3 as _ _ E3 _.
  rewrite Ht0, Ht1, E2, E3.
  split; [done|]. split; [done|]. split; [done|].
  assert (Hrule : ∀ q, wellFormed (ceSeriesOf K dataService d strike)
                         (peSeriesOf K dataService d strike) strike q →
      ∀ x, exitTime (withPnl (lotSize K)
                       (exitAtEOD d (ceSeriesOf K dataService d strike)
                          (peSeriesOf K dataService d strike) q).1) = Some x →
           exitReason (withPnl (lotSize K)
                         (exitAtEOD d (ceSeriesOf K dataService d strike)
                            (peSeriesOf K dataService d strike) q).1)
           ≠ Some EOD →
           exitTime q = Some x).
  { intros q Hw x Hx Hr.
    destruct (final_position_record K dataService d strike q Hw)
      as (_ & Hc & _). cbv zeta in Hc.
    destruct (exitAtEOD_cases d (ceSeriesOf K dataService d strike)
                (peSeriesOf K dataService d strike) q)
      as [(Hf & _)|[(Ha & _ & E)|(_ & final & _ & E)]].
    - destruct (Hc Hf) as (_ & _ & <-). done.
    - rewrite E in Hx. simpl in Hx.
      destruct Hw as (_ & _ & [(_ & Hpr & Htm & _)|[? _]]); [|congruence].
      unfold withPnl, positionPnl in Hx. rewrite Hpr in Hx. simpl in Hx.
      congruence.
    - rewrite E in Hr. simpl in Hr. unfold withPnl, positionPnl in Hr.
      simpl in Hr. done. }
  split.
  - intros x Hx Hr. apply Ho2. by apply Hrule.
  - intros x Hx Hr. rewrite Ho23. apply Ho3. by apply Hrule.
Qed.

(** ** The last trading days *)

Section TradingDays.
Context (today : Z) (n : Z).






End TradingDays.

(** ** More sample runs *)

(** The first event of [bothDrop]: the combined stop loss fires at [t1]. *)
Lemma combined_exit_reenters_at_once_witness :
  let st := startState defaults sampleDate 50000 100 100 in
  let st' := (processEvent defaults sampleDate [tick t1 70] [tick t1 70] t1 st).2 in
  madeAdjustment (tradeDay st') = true
  ∧ adjustmentDone st' = true
  ∧ ∃ r0 r1,
      r0 ≠ EOD ∧ r1 ≠ EOD
      ∧ positions (tradeDay st')
        = [ exitPosition (ltp (tick t1 70)) t1 r0
              (newPosition CE 100 (sampleClock sampleDate "09:25") 50000);
            exitPosition (ltp (tick t1 70)) t1 r1
              (newPosition PE 100 (sampleClock sampleDate "09:25") 50000);
            newPosition CE (ltp (tick t1 70)) t1 (atmStrike (tradeDay st));
            newPosition PE (ltp (tick t1 70)) t1 (atmStrike (tradeDay st)) ].
Proof.
  apply (combined_exit_reenters_at_once defaults sampleDate
           [tick t1 70] [tick t1 70] t1
           (startState defaults sampleDate 50000 100 100)
           (newPosition CE 100 (sampleClock sampleDate "09:25") 50000)
           (newPosition PE 100 (sampleClock sampleDate "09:25") 50000)
           (tick t1 70) (tick t1 70)); reflexivity.
Defined.

(** The four positions of the day of [dropTwice]. *)
Lemma adjustment_follows_the_exits_witness :
  ∃ p0 p1 p2 p3,
    positions (processTradingDay defaults dropTwice sampleDate).1
    = [p0; p1; p2; p3]
    ∧ (∀ x, exitTime p0 = Some x → (x ≤ entryTime p2)%Z)
    ∧ (∀ x, exitTime p1 = Some x → (x ≤ entryTime p2)%Z)
    ∧ entryTime p3 = entryTime p2
    ∧ (∀ x, exitTime p2 = Some x → exitReason p2 ≠ Some EOD →
            (entryTime p2 < x)%Z)
    ∧ (∀ x, exitTime p3 = Some x → exitReason p3 ≠ Some EOD →
            (entryTime p3 < x)%Z).
Proof.
  eexists _, _, _, _. split; [vm_compute; reflexivity|].
  apply (adjustment_follows_the_exits defaults dropTwice sampleDate 50000).
  - reflexivity.
  - repeat constructor; vm_compute; discriminate.
  - repeat constructor; vm_compute; discriminate.
  - vm_compute. reflexivity.
Defined.


(** The loop itself on that Friday and on the Sunday after it. *)
Example trading_days_skip_the_weekend :
  tradingDaysLoop 9 3 20231 [] = Some [20231; 20230; 20229]%Z
  ∧ tradingDaysLoop 9 3 20233 [] = Some [20231; 20230; 20229]%Z
  ∧ tradingDaysLoop 20 6 20231 []
    = Some [20231; 20230; 20229; 20228; 20227; 20224]%Z
  ∧ tradingDaysLoop 0 0 20231 [] = Some []
  ∧ tradingDaysLoop 0 (-2) 20231 [] = Some [].
Proof. vm_compute. done. Qed.

(** Without that range the clock need not run forward.  On [lateTick] the
    event of year 10000 is the first of the clock: the entry call is closed
    at it, the put is closed at [t1], the second event, and the adjustment
    pair enters at [t1], before the exit time the entry call carries. *)
Example clock_with_a_year_10000_tick :
  let day := (processTradingDay defaults lateTick sampleDate).1 in
  sortedTimes (ceSeriesOf defaults lateTick sampleDate 50000)
    (peSeriesOf defaults lateTick sampleDate 50000)
  = [yearTenThousand; t1]
  ∧ (λ p, (type p, entryTime p, exitTime p)) <$> positions day
    = [(CE, 33900000%Z, Some yearTenThousand); (PE, 33900000%Z, Some t1);
       (CE, t1, Some yearTenThousand); (PE, t1, Some t1)].
Proof. vm_compute. done. Qed.
